(** * SafetyAgent: the retrieval-and-answer core of [simple_server.py]

    A shallow embedding of the chunker, the in-memory knowledge base with its
    statistics, the lexical relevance scorer and the two answer strategies,
    and of the registry, the endpoints and the connection manager of
    [backend/document_loader.py] and [backend/main.py] (modules [Loader]
    and [Main]), followed by the properties established about them.

    Conventions of the embedding.
    - A Python [str] is a list of characters.  Characters are the 8-bit
      [ascii] type; [lower], [split] and [strip] are the ASCII restrictions
      of the Python methods (code points above 127 are left alone by
      [lower] and are never whitespace).
    - A Python [dict] that is iterated is an association list in insertion
      order; assigning to a present key keeps its position.
    - A relevance score is the exact quotient of two integers, kept in [Q].
      Python computes the correctly rounded double of the same quotient;
      rounding is monotone, so every comparison made on scores below has the
      same outcome up to ties, and ties only matter through [==].
    - An exception is a value of [exn]; code that can raise returns
      [result]. *)

From Stdlib Require Import Ascii String.
From Stdlib Require Import List ZArith QArith Qminmax Lia Bool Arith.
From Stdlib Require Import Sorted Permutation DecimalString DecimalNat.
Import ListNotations.

Set Implicit Arguments.

Close Scope Q_scope.
Open Scope nat_scope.

(** ** Python strings *)

Module Py.

Definition str := list ascii.

Definition lit (s : string) : str := list_ascii_of_string s.

(** [c.isspace()] for an ASCII character: TAB, LF, VT, FF, CR, the four
    separators FS, GS, RS, US and the blank. *)
Definition isspace (c : ascii) : bool :=
  let n := nat_of_ascii c in
  ((9 <=? n) && (n <=? 13)) || ((28 <=? n) && (n <=? 32)).

Definition lower_char (c : ascii) : ascii :=
  let n := nat_of_ascii c in
  if (65 <=? n) && (n <=? 90) then ascii_of_nat (n + 32) else c.

(** [s.lower()] *)
Definition lower (s : str) : str := map lower_char s.

(** [s.split()]: the maximal runs of non-whitespace characters, in order. *)
Fixpoint split (s : str) : list str :=
  match s with
  | [] => []
  | c :: s' =>
      if isspace c then split s'
      else
        match s' with
        | [] => [[c]]
        | d :: _ =>
            if isspace d then [c] :: split s'
            else
              match split s' with
              | w :: ws => (c :: w) :: ws
              | [] => [[c]]
              end
        end
  end.

Fixpoint dropwhile (p : ascii -> bool) (s : str) : str :=
  match s with
  | [] => []
  | c :: s' => if p c then dropwhile p s' else s
  end.

(** [s.strip(chars)] and [s.strip()]: characters of the set are removed
    from BOTH ends. *)
Definition strip_set (p : ascii -> bool) (s : str) : str :=
  rev (dropwhile p (rev (dropwhile p s))).

Definition mem_char (chars : str) (c : ascii) : bool :=
  existsb (Ascii.eqb c) chars.

Definition strip_chars (chars : str) (s : str) : str := strip_set (mem_char chars) s.

Definition strip (s : str) : str := strip_set isspace s.

(** [s.rstrip(chars)]: the trailing end only (used to phrase the
    specification's wording, not by the source). *)
Definition rstrip_chars (chars : str) (s : str) : str :=
  rev (dropwhile (mem_char chars) (rev s)).

Fixpoint startswith (w t : str) : bool :=
  match w, t with
  | [], _ => true
  | _ :: _, [] => false
  | a :: w', b :: t' => Ascii.eqb a b && startswith w' t'
  end.

(** [w in t] for strings: [w] occurs as a contiguous substring of [t]. *)
Fixpoint contains (w t : str) : bool :=
  startswith w t ||
  match t with
  | [] => false
  | _ :: t' => contains w t'
  end.

(** [sep.join(ws)] *)
Fixpoint join (sep : str) (ws : list str) : str :=
  match ws with
  | [] => []
  | [w] => w
  | w :: ws' => w ++ sep ++ join sep ws'
  end.

(** [str(n)] for a non-negative integer. *)
Definition str_of_nat (n : nat) : str :=
  lit (NilEmpty.string_of_uint (Nat.to_uint n)).

(** [l[lo:hi]] with Python's treatment of negative and out-of-range bounds. *)
Definition clamp_index (len : nat) (i : Z) : nat :=
  let l := Z.of_nat len in
  if (i <? 0)%Z then Z.to_nat (Z.max 0 (l + i)) else Z.to_nat (Z.min l i).

Definition slice {A} (l : list A) (lo hi : Z) : list A :=
  let a := clamp_index (length l) lo in
  let b := clamp_index (length l) hi in
  firstn (b - a) (skipn a l).

(** [l[:hi]] *)
Definition slice_to {A} (l : list A) (hi : Z) : list A := slice l 0 hi.

(** [ceil(a / b)] on naturals. *)
Definition ceil_div (a b : nat) : nat := (a + b - 1) / b.

(** Iterating [range(start, stop, step)] for a positive step: the index is
    yielded and advanced by [step] while it is below [stop].  [fuel] bounds
    the number of iterations. *)
Fixpoint range_from (fuel start stop step : nat) : list nat :=
  match fuel with
  | 0 => []
  | S fuel' =>
      if start <? stop then start :: range_from fuel' (start + step) stop step
      else []
  end.

(** [range(0, stop, step)] for a positive step; [stop] iterations are
    enough, see [range_from_fuel]. *)
Definition range (stop step : nat) : list nat := range_from stop 0 stop step.

End Py.

Import Py.

Definition nl : ascii := ascii_of_nat 10.
Definition dquote : ascii := ascii_of_nat 34.

Fixpoint str_eqb (a b : str) : bool :=
  match a, b with
  | [], [] => true
  | x :: a', y :: b' => Ascii.eqb x y && str_eqb a' b'
  | _, _ => false
  end.

(** Truthiness of a string or list: non-empty. *)
Definition truthy {A} (l : list A) : bool :=
  match l with [] => false | _ :: _ => true end.

(** ** Exceptions *)

Inductive exn : Type :=
| ValueError (msg : str)
| IndexError (msg : str)
| HTTPException (status_code : nat) (detail : str)
| GenerationError.

Inductive result (A : Type) : Type :=
| Ok (a : A)
| Raise (e : exn).
Arguments Ok {A} a.
Arguments Raise {A} e.

(** [str(e)] *)
Definition exn_str (e : exn) : str :=
  match e with
  | ValueError m => m
  | IndexError m => m
  | HTTPException c d => str_of_nat c ++ lit ": " ++ d
  | GenerationError => lit "generation failed"
  end.

(** ** Data model *)

(** The [metadata] dict of a document; the last two keys are only set by
    [load_safety_manual]. *)
Record doc_metadata : Type := mk_doc_metadata {
  doc_id : str;
  filename : str;
  category : str;
  file_size : nat;
  text_length : nat;
  extraction_date : option str;
  source : option str
}.

(** The [metadata] dict of a chunk: the document's, merged with the
    chunk's own keys ([title] only for the safety manual). *)
Record chunk_metadata : Type := mk_chunk_metadata {
  doc_meta : doc_metadata;
  chunk_index : nat;
  word_count : nat;
  title : option str
}.

(** A chunk dict.  The key [relevance_score] is absent ([None]) until the
    scorer writes it. *)
Record chunk : Type := mk_chunk {
  id : str;
  text : str;
  metadata : chunk_metadata;
  relevance_score : option Q
}.

Record doc_data : Type := mk_doc_data {
  doc_metadata_of : doc_metadata;
  chunks : list chunk;
  full_text : str;
  sections : option (list str)
}.

(** The global dict [knowledge_base], in insertion order. *)
Definition KnowledgeBase : Type := list (str * doc_data).

(** [kb[k] = v] *)
Fixpoint dict_set (k : str) (v : doc_data) (kb : KnowledgeBase) : KnowledgeBase :=
  match kb with
  | [] => [(k, v)]
  | (k', v') :: rest =>
      if str_eqb k k' then (k', v) :: rest else (k', v') :: dict_set k v rest
  end.

Definition keys (kb : KnowledgeBase) : list str := map fst kb.

(** The global dict [stats]: separately maintained counters. *)
Record Stats : Type := mk_stats {
  total_documents : nat;
  total_chunks : nat;
  categories : list str
}.

Record server_state : Type := mk_state {
  knowledge_base : KnowledgeBase;
  stats : Stats
}.

(** The module-level initial values. *)
Definition initial_state : server_state :=
  {| knowledge_base := [];
     stats := {| total_documents := 0; total_chunks := 0; categories := [] |} |}.

(** ** Chunker: [SimpleDocumentProcessor.chunk_text] *)

Record SimpleDocumentProcessor : Type := mk_processor {
  chunk_size : nat;
  chunk_overlap : nat
}.

(** [SimpleDocumentProcessor.__init__] *)
Definition processor : SimpleDocumentProcessor :=
  {| chunk_size := 1000; chunk_overlap := 200 |}.

(** [words[i:i + self.chunk_size]] *)
Definition window (p : SimpleDocumentProcessor) (words : list str) (i : nat) : list str :=
  firstn (chunk_size p) (skipn i words).

Definition window_text (p : SimpleDocumentProcessor) (words : list str) (i : nat) : str :=
  join (lit " ") (window p words i).

(** A window is blank when its text is empty after [strip()]. *)
Definition blank (s : str) : bool := negb (truthy (strip s)).

(** The body of the [for] loop, over the remaining start positions, with
    the list [chunks] built so far. *)
Fixpoint chunk_loop (p : SimpleDocumentProcessor) (meta : doc_metadata)
    (words : list str) (starts : list nat) (chunks : list chunk) : list chunk :=
  match starts with
  | [] => chunks
  | i :: rest =>
      let chunk_words := window p words i in
      let chunk_text := join (lit " ") chunk_words in
      if truthy (strip chunk_text) then
        let chunk :=
          {| id := doc_id meta ++ lit "_chunk_" ++ str_of_nat (length chunks);
             text := chunk_text;
             metadata := {| doc_meta := meta;
                            chunk_index := length chunks;
                            word_count := length chunk_words;
                            title := None |};
             relevance_score := None |} in
        chunk_loop p meta words rest (chunks ++ [chunk])
      else chunk_loop p meta words rest chunks
  end.

(** [chunk_text(self, text, metadata)].  [range] raises on a zero step and
    is empty on a negative one. *)
Definition chunk_text (p : SimpleDocumentProcessor) (text : str) (meta : doc_metadata)
  : result (list chunk) :=
  let words := split text in
  let step := (Z.of_nat (chunk_size p) - Z.of_nat (chunk_overlap p))%Z in
  if (step =? 0)%Z then Raise (ValueError (lit "range() arg 3 must not be zero"))
  else if (step <? 0)%Z then Ok []
  else Ok (chunk_loop p meta words (range (length words) (Z.to_nat step)) []).

(** ** Ingestion: [upload_document] and [load_safety_manual] *)

(** What one upload request carries, after the framework and the text
    extractor (external collaborators) have done their part. *)
Record upload : Type := mk_upload {
  up_filename : str;
  up_ext : str;           (* os.path.splitext(file.filename)[1] *)
  up_content_len : nat;   (* len(content) *)
  up_category : str;      (* the form field, "general" when omitted *)
  up_text : str           (* processor.extract_text(temp_path) *)
}.

Definition allowed_extensions : list str :=
  [lit ".pdf"; lit ".txt"; lit ".md"; lit ".docx"; lit ".doc"].

Definition allowed_extensions_repr : str :=
  lit "['.pdf', '.txt', '.md', '.docx', '.doc']".

Record upload_response : Type := mk_upload_response {
  ur_message : str;
  ur_doc_id : str;
  ur_chunks_created : nat;
  ur_filename : str
}.

(** The outer [except Exception] handler. *)
Definition upload_failed (e : exn) : exn :=
  HTTPException 500 (lit "Error processing document: " ++ exn_str e).

(** [if category not in l: l.append(category)] *)
Definition add_category (c : str) (l : list str) : list str :=
  if existsb (str_eqb c) l then l else l ++ [c].

(** The store and the three counter updates of [upload_document]
    (the statements after chunking), for a given identifier. *)
Definition store_document (doc_id : str) (meta : doc_metadata) (cs : list chunk)
    (text : str) (s : server_state) : server_state :=
  let kb := dict_set doc_id
              {| doc_metadata_of := meta; chunks := cs; full_text := text;
                 sections := None |} (knowledge_base s) in
  let st := stats s in
  {| knowledge_base := kb;
     stats := {| total_documents := total_documents st + 1;
                 total_chunks := total_chunks st + length cs;
                 categories := add_category (category meta) (categories st) |} |}.

Definition upload_document (u : upload) (s : server_state)
  : server_state * result upload_response :=
  let file_ext := lower (up_ext u) in
  if negb (existsb (str_eqb file_ext) allowed_extensions) then
    (s, Raise (upload_failed
                 (HTTPException 400
                    (lit "File type " ++ file_ext ++ lit " not supported. Allowed: "
                       ++ allowed_extensions_repr))))
  else
    let text := up_text u in
    let doc_id := lit "doc_" ++ str_of_nat (length (knowledge_base s)) in
    let meta :=
      {| doc_id := doc_id; filename := up_filename u; category := up_category u;
         file_size := up_content_len u; text_length := length text;
         extraction_date := None; source := None |} in
    match chunk_text processor text meta with
    | Raise e => (s, Raise (upload_failed e))
    | Ok cs =>
        (store_document doc_id meta cs text s,
         Ok {| ur_message := lit "Document uploaded and processed successfully";
               ur_doc_id := doc_id;
               ur_chunks_created := length cs;
               ur_filename := up_filename u |})
    end.

(** The pre-chunked corpus read at start-up. *)
Record manual_chunk : Type := mk_manual_chunk {
  mc_id : str;
  mc_content : str;
  mc_title : str;
  mc_word_count : nat
}.

Record safety_data : Type := mk_safety_data {
  sd_source_file : str;
  sd_total_characters : nat;
  sd_extraction_date : str;
  sd_chunks : list manual_chunk;
  sd_full_text : str;
  sd_sections : list str;
  sd_file_size : nat;     (* len(safety_manual_json) or os.path.getsize(json_path) *)
  sd_source : str         (* 'environment' or 'file' *)
}.

(** [enumerate(safety_data['chunks'])] turned into chunk dicts. *)
Fixpoint manual_chunks (meta : doc_metadata) (i : nat) (l : list manual_chunk) : list chunk :=
  match l with
  | [] => []
  | c :: l' =>
      {| id := mc_id c; text := mc_content c;
         metadata := {| doc_meta := meta; chunk_index := i;
                        word_count := mc_word_count c; title := Some (mc_title c) |};
         relevance_score := None |} :: manual_chunks meta (S i) l'
  end.

(** [load_safety_manual()]: [None] stands for every way of failing before
    the store (no file, malformed JSON, a missing key), which leaves both
    globals as they are. *)
Definition load_safety_manual (d : option safety_data) (s : server_state) : server_state :=
  match d with
  | None => s
  | Some d =>
      let doc_id := lit "safety_manual" in
      let meta :=
        {| doc_id := doc_id; filename := sd_source_file d;
           category := lit "safety_manual"; file_size := sd_file_size d;
           text_length := sd_total_characters d;
           extraction_date := Some (sd_extraction_date d);
           source := Some (sd_source d) |} in
      let cs := manual_chunks meta 0 (sd_chunks d) in
      {| knowledge_base :=
           dict_set doc_id
             {| doc_metadata_of := meta; chunks := cs; full_text := sd_full_text d;
                sections := Some (sd_sections d) |} (knowledge_base s);
         stats := {| total_documents := 1; total_chunks := length cs;
                     categories := [lit "safety_manual"] |} |}
  end.

(** ** Relevance scorer: [find_relevant_chunks] *)

Definition punctuation : str := lit ".,!?".

(** [[word.strip('.,!?') for word in question_lower.split()]] *)
Definition question_words (question : str) : list str :=
  map (strip_chars punctuation) (split (lower question)).

(** [sum(1 for word in question_words if word in chunk_text_lower)] *)
Definition count_matches (words : list str) (chunk_text_lower : str) : nat :=
  length (filter (fun word => contains word chunk_text_lower) words).

(** [any(phrase in chunk_text_lower for phrase in question_lower.split())] *)
Definition phrase_hit (question : str) (chunk_text_lower : str) : bool :=
  existsb (fun phrase => contains phrase chunk_text_lower) (split (lower question)).

(** The value of [matches] when the score is computed, for a chunk that
    passed the [matches > 0] test. *)
Definition boosted_matches (question : str) (chunk_text_lower : str) : nat :=
  let matches := count_matches (question_words question) chunk_text_lower in
  if phrase_hit question chunk_text_lower then matches + 2 else matches.

(** [a / b] on non-negative integers, as an exact rational. *)
Definition py_div (a b : nat) : Q := (inject_Z (Z.of_nat a) / inject_Z (Z.of_nat b))%Q.

Definition set_score (c : chunk) (q : Q) : chunk :=
  {| id := id c; text := text c; metadata := metadata c; relevance_score := Some q |}.

(** The body of the inner loop for one chunk: the chunk as it is left in
    the knowledge base, and whether it was appended to [relevant_chunks]. *)
Definition score_chunk (question : str) (c : chunk) : chunk * bool :=
  let chunk_text_lower := lower (text c) in
  let matches := count_matches (question_words question) chunk_text_lower in
  if 0 <? matches then
    (set_score c (py_div (boosted_matches question chunk_text_lower)
                         (length (question_words question))), true)
  else (c, false).

(** The inner loop: the chunks as left in the store, and the chunks
    appended, in order. *)
Fixpoint scan_chunks (question : str) (cs : list chunk) : list chunk * list chunk :=
  match cs with
  | [] => ([], [])
  | c :: cs' =>
      let (c', hit) := score_chunk question c in
      let (stored, relevant) := scan_chunks question cs' in
      (c' :: stored, if hit then c' :: relevant else relevant)
  end.

(** The outer loop over [knowledge_base.items()]. *)
Fixpoint scan_docs (question : str) (kb : KnowledgeBase) : KnowledgeBase * list chunk :=
  match kb with
  | [] => ([], [])
  | (k, d) :: kb' =>
      let (stored, relevant) := scan_chunks question (chunks d) in
      let (kb'', relevant') := scan_docs question kb' in
      ((k, {| doc_metadata_of := doc_metadata_of d; chunks := stored;
              full_text := full_text d; sections := sections d |}) :: kb'',
       relevant ++ relevant')
  end.

(** [x.get('relevance_score', 0)] *)
Definition sort_key (c : chunk) : Q :=
  match relevance_score c with Some q => q | None => 0%Q end.

(** [list.sort(key=..., reverse=True)] is a stable sort into descending
    key order; a stable sort has one possible result, computed here by
    insertion from the right. *)
Fixpoint insert_desc (x : chunk) (l : list chunk) : list chunk :=
  match l with
  | [] => [x]
  | y :: l' =>
      if Qle_bool (sort_key y) (sort_key x) then x :: l
      else y :: insert_desc x l'
  end.

Definition sort_desc (l : list chunk) : list chunk := fold_right insert_desc [] l.

(** [find_relevant_chunks(question, max_chunks)]: the knowledge base as the
    call leaves it, and the returned list.  The returned chunks are the
    stored dicts themselves; they are given here by their contents at
    return. *)
Definition find_relevant_chunks (question : str) (max_chunks : Z) (kb : KnowledgeBase)
  : KnowledgeBase * list chunk :=
  let (kb', relevant_chunks) := scan_docs question kb in
  (kb', slice_to (sort_desc relevant_chunks) max_chunks).

Definition default_max_chunks : Z := 5%Z.

(** A chunk as one pass of the scorer leaves it, and whether the pass
    selects it. *)
Definition rescored (question : str) (c : chunk) : chunk := fst (score_chunk question c).
Definition selected (question : str) (c : chunk) : bool := snd (score_chunk question c).

Definition rescored_doc (question : str) (d : doc_data) : doc_data :=
  {| doc_metadata_of := doc_metadata_of d; chunks := map (rescored question) (chunks d);
     full_text := full_text d; sections := sections d |}.

(** Descending order of the sort key. *)
Definition desc (a b : chunk) : Prop := (sort_key b <= sort_key a)%Q.

(** ** Answer synthesizer *)

Record source_ref : Type := mk_source_ref {
  src_filename : str;
  src_chunk_id : str;
  src_relevance : Q
}.

Record answer : Type := mk_answer {
  response : str;
  confidence : Q;
  sources : list source_ref
}.

(** The built-ins [max(a, b)] and [min(a, b)]: the first argument unless
    the second is strictly larger (smaller). *)
Definition py_max (a b : Q) : Q := if Qle_bool b a then a else b.
Definition py_min (a b : Q) : Q := if Qle_bool a b then a else b.

(** [chunk.get('relevance_score', 0.8)] *)
Definition score_or_default (c : chunk) : Q :=
  match relevance_score c with Some q => q | None => (8 # 10)%Q end.

Definition source_of (c : chunk) : source_ref :=
  {| src_filename := filename (doc_meta (metadata c));
     src_chunk_id := id c;
     src_relevance := score_or_default c |}.

Definition preamble : str := lit "Based on the safety manual:" ++ [nl; nl].

(** The [for i, chunk in enumerate(top_chunks, 1)] loop. *)
Fixpoint numbered (i : nat) (cs : list chunk) (response_text : str) : str :=
  match cs with
  | [] => response_text
  | c :: cs' =>
      numbered (S i) cs'
        (response_text ++ str_of_nat i ++ lit ". " ++ firstn 300 (text c)
           ++ lit "..." ++ [nl; nl])
  end.

(** [generate_simple_response(relevant_chunks)]: the extractive strategy.
    [top_chunks[0]] raises on an empty list. *)
Definition generate_simple_response (relevant_chunks : list chunk) : result answer :=
  let top_chunks := firstn 3 relevant_chunks in
  let response_text :=
    match top_chunks with
    | [c] => preamble ++ firstn 500 (text c) ++ lit "..."
    | _ => numbered 1 top_chunks preamble
    end in
  let sources := map source_of top_chunks in
  match top_chunks with
  | [] => Raise (IndexError (lit "list index out of range"))
  | top :: _ =>
      Ok {| response := response_text;
            confidence := py_min (8 # 10) (py_max (5 # 10) (score_or_default top));
            sources := sources |}
  end.

(** The text generator (the OpenAI client): from the system and the user
    prompt to the message content, or [None] when the call or the reading
    of its reply raises. *)
Definition TextGenerator : Type := str -> str -> option str.

Definition system_prompt : str :=
  lit "You are SafetyAgent AI, a helpful assistant that answers questions about workplace safety based on the provided safety manual content. "
  ++ [nl; nl] ++ lit "Your role:" ++ [nl]
  ++ lit "- Answer safety-related questions clearly and accurately" ++ [nl]
  ++ lit "- Use only information from the provided safety manual content" ++ [nl]
  ++ lit "- Be helpful, professional, and safety-focused" ++ [nl]
  ++ lit "- If the information isn't in the manual, say so clearly" ++ [nl]
  ++ lit "- Provide specific, actionable guidance when possible" ++ [nl; nl]
  ++ lit "Always base your answers on the safety manual content provided.".

Definition user_prompt (question context : str) : str :=
  lit "Based on the following safety manual content, please answer this question: "
  ++ [dquote] ++ question ++ [dquote] ++ [nl; nl]
  ++ lit "Safety Manual Content:" ++ [nl] ++ context ++ [nl; nl]
  ++ lit "Please provide a clear, helpful answer based on the safety manual information above.".

(** The calls a request makes, in order (a ghost record: the source keeps
    no such log). *)
Inductive call : Type :=
| CallScorer
| CallGenerator
| CallExtractive.

(** [generate_ai_response(question, relevant_chunks)]: any exception of the
    [try] block is caught and answered by the extractive strategy. *)
Definition generate_ai_response (client : TextGenerator) (question : str)
    (relevant_chunks : list chunk) : result answer * list call :=
  let context := join [nl; nl] (map text (firstn 3 relevant_chunks)) in
  match client system_prompt (user_prompt question context) with
  | Some content =>
      (Ok {| response := strip content;
             confidence := (9 # 10)%Q;
             sources := map source_of (firstn 3 relevant_chunks) |},
       [CallGenerator])
  | None =>
      (generate_simple_response relevant_chunks, [CallGenerator; CallExtractive])
  end.

Definition please_provide : answer :=
  {| response := lit "Please provide a question."; confidence := 0%Q; sources := [] |}.

Definition no_manual : answer :=
  {| response := lit "I don't have access to the safety manual yet. Please restart the server to load the safety manual.";
     confidence := 0%Q; sources := [] |}.

Definition not_found : answer :=
  {| response := lit "I couldn't find specific information about that topic in the safety manual. Try asking about general safety requirements, PPE, emergency procedures, or incident reporting.";
     confidence := 0%Q; sources := [] |}.

(** The outer [except Exception] handler of [chat_with_agent]. *)
Definition chat_failed (e : exn) : answer :=
  {| response := lit "Sorry, I encountered an error: " ++ exn_str e;
     confidence := 0%Q; sources := [] |}.

Definition recover (r : result answer) : answer :=
  match r with Ok a => a | Raise e => chat_failed e end.

(** [query.get('query', '')] *)
Definition query_get (query : option str) : str :=
  match query with Some q => q | None => [] end.

(** [chat_with_agent(query)].  [query] is the value under the key 'query'
    of the request ([None]: key absent); [openai_client] is the global of
    that name.  The result is the knowledge base as the request leaves it,
    the answer, and the calls made. *)
Definition chat_with_agent (openai_client : option TextGenerator) (query : option str)
    (kb : KnowledgeBase) : KnowledgeBase * answer * list call :=
  let question := strip (query_get query) in
  if negb (truthy question) then (kb, please_provide, [])
  else if negb (truthy kb) then (kb, no_manual, [])
  else
    let (kb', relevant_chunks) := find_relevant_chunks question default_max_chunks kb in
    if negb (truthy relevant_chunks) then (kb', not_found, [CallScorer])
    else
      match openai_client with
      | Some client =>
          let (r, calls) := generate_ai_response client question relevant_chunks in
          (kb', recover r, CallScorer :: calls)
      | None =>
          (kb', recover (generate_simple_response relevant_chunks),
           [CallScorer; CallExtractive])
      end.

(** ** The server as a transition system *)

Inductive request : Type :=
| ReqUpload (u : upload)
| ReqChat (openai_client : option TextGenerator) (query : option str)
| ReqStats.

Definition handle (r : request) (s : server_state) : server_state :=
  match r with
  | ReqUpload u => fst (upload_document u s)
  | ReqChat client query =>
      {| knowledge_base := fst (fst (chat_with_agent client query (knowledge_base s)));
         stats := stats s |}
  | ReqStats => s
  end.

(** [get_stats()] returns the global as it is. *)
Definition get_stats (s : server_state) : Stats := stats s.

(** The states the program reaches: the start-up load (run once by the
    main block, before the server accepts requests), then requests. *)
Inductive reachable : server_state -> Prop :=
| reach_start : forall d, reachable (load_safety_manual d initial_state)
| reach_handle : forall s r, reachable s -> reachable (handle r s).

(** Recomputation of the statistics by a fold over the map. *)
Definition recompute (kb : KnowledgeBase) : Stats :=
  {| total_documents := length kb;
     total_chunks := fold_left (fun n kv => n + length (chunks (snd kv))) kb 0;
     categories :=
       fold_left (fun l kv => add_category (category (doc_metadata_of (snd kv))) l) kb [] |}.

(** ** Reference definitions and sample data *)

(** The token list in the words of the design document: lowercase, split
    on whitespace, strip the trailing punctuation characters, discard the
    tokens that are empty after stripping. *)
Definition spec_question_words (question : str) : list str :=
  filter truthy (map (rstrip_chars punctuation) (split (lower question))).

(** The texts of the windows the chunker visits, in order. *)
Definition windows (p : SimpleDocumentProcessor) (words : list str) : list str :=
  map (window_text p words) (range (length words) (chunk_size p - chunk_overlap p)).

(** The identifiers the program hands out: the fixed one of the manual and
    [doc_i] for an [i] below the number of documents. *)
Definition keys_issued (kb : KnowledgeBase) : Prop :=
  forall k, In k (keys kb) ->
    k = lit "safety_manual" \/ exists i, i < length kb /\ k = lit "doc_" ++ str_of_nat i.

(** The identifier [upload_document] computes in a state. *)
Definition next_doc_id (s : server_state) : str :=
  lit "doc_" ++ str_of_nat (length (knowledge_base s)).

(** [clamp(x, lo, hi)] *)
Definition clamp (x lo hi : Q) : Q := Qmin hi (Qmax lo x).

(** A one-document knowledge base: the sentence of the design document's
    scenario, chunked with a window of 5 words and an overlap of 2. *)
Definition sample_metadata : doc_metadata :=
  {| doc_id := lit "doc_0"; filename := lit "ppe.txt"; category := lit "general";
     file_size := 51; text_length := 51; extraction_date := None; source := None |}.

Definition sample_text : str := lit "PPE requires hard hats and safety glasses on site.".

Definition sample_processor : SimpleDocumentProcessor :=
  {| chunk_size := 5; chunk_overlap := 2 |}.

Definition sample_chunks : list chunk :=
  match chunk_text sample_processor sample_text sample_metadata with
  | Ok cs => cs
  | Raise _ => []
  end.

Definition sample_kb : KnowledgeBase :=
  [(lit "doc_0",
    {| doc_metadata_of := sample_metadata; chunks := sample_chunks;
       full_text := sample_text; sections := None |})].

(** The first chunk of [sample_chunks], written out. *)
Definition sample_chunk : chunk :=
  {| id := lit "doc_0_chunk_0"; text := lit "PPE requires hard hats and";
     metadata := {| doc_meta := sample_metadata; chunk_index := 0; word_count := 5;
                    title := None |};
     relevance_score := None |}.

(** A generator that fails on every call, and the outcome of scoring the
    query "hard hats" on the sample. *)
Definition failing_generator : TextGenerator := fun _ _ => None.

Definition sample_kb_scored : KnowledgeBase :=
  fst (find_relevant_chunks (lit "hard hats") default_max_chunks sample_kb).

Definition sample_ranked : list chunk :=
  snd (find_relevant_chunks (lit "hard hats") default_max_chunks sample_kb).

Definition sample_upload : upload :=
  {| up_filename := lit "ppe.txt"; up_ext := lit ".TXT"; up_content_len := 51;
     up_category := lit "general"; up_text := sample_text |}.


(** ** Further definitions: derived views used by the additional properties *)

(** The chunk dict built by the loop body of [chunk_text] for the window
    starting at word [i], when [k] chunks have been emitted before. *)
Definition make_chunk (p : SimpleDocumentProcessor) (meta : doc_metadata)
    (words : list str) (k i : nat) : chunk :=
  {| id := doc_id meta ++ lit "_chunk_" ++ str_of_nat k;
     text := join (lit " ") (window p words i);
     metadata := {| doc_meta := meta; chunk_index := k;
                    word_count := length (window p words i); title := None |};
     relevance_score := None |}.

(** A word as [split] produces it: non-empty and free of whitespace. *)
Definition is_word (w : str) : Prop :=
  w <> [] /\ forallb (fun c => negb (isspace c)) w = true.

(** [kb.get(k)] *)
Fixpoint dict_get (k : str) (kb : KnowledgeBase) : option doc_data :=
  match kb with
  | [] => None
  | (k', v) :: rest => if str_eqb k k' then Some v else dict_get k rest
  end.

(** All chunks of the knowledge base, in iteration order. *)
Definition all_chunks (kb : KnowledgeBase) : list chunk :=
  flat_map (fun kd => chunks (snd kd)) kb.

(** Whether a chunk's sort key equals a given score. *)
Definition same_score (v : Q) (c : chunk) : bool := Qeq_bool (sort_key c) v.

(** ** [backend/document_loader.py] and [backend/main.py] *)

(** A Python dict with string keys, in insertion order. *)
Section Dict.

Variable V : Type.

Definition adict : Type := list (str * V).

(** [d.get(k)] *)
Fixpoint aget (k : str) (d : adict) : option V :=
  match d with
  | [] => None
  | (k', v) :: rest => if str_eqb k k' then Some v else aget k rest
  end.

(** [d[k] = v] *)
Fixpoint aset (k : str) (v : V) (d : adict) : adict :=
  match d with
  | [] => [(k, v)]
  | (k', v') :: rest => if str_eqb k k' then (k', v) :: rest else (k', v') :: aset k v rest
  end.

(** [del d[k]], for a key that is present *)
Fixpoint adel (k : str) (d : adict) : adict :=
  match d with
  | [] => []
  | (k', v') :: rest => if str_eqb k k' then rest else (k', v') :: adel k rest
  end.

(** [k in d] *)
Definition amem (k : str) (d : adict) : bool :=
  match aget k d with Some _ => true | None => false end.

(** [{**d, **e}]: the items of [e] assigned over [d], in order. *)
Definition amerge (d e : adict) : adict :=
  fold_left (fun acc kv => aset (fst kv) (snd kv) acc) e d.

End Dict.

Module Loader.

(** A value of [documents_metadata]. *)
Record entry : Type := mk_entry {
  e_file_path : str;
  e_chunks_count : nat;
  e_metadata : adict str;
  e_loaded_at : str
}.

(** The part of a [SafetyAgentDocumentLoader] that its own code reads and
    writes; the vector store is an external collaborator. *)
Record loader : Type := mk_loader {
  persist_directory : str;
  chunk_size : nat;
  chunk_overlap : nat;
  documents_metadata : adict entry
}.

Definition with_documents (l : loader) (dm : adict entry) : loader :=
  {| persist_directory := persist_directory l; chunk_size := chunk_size l;
     chunk_overlap := chunk_overlap l; documents_metadata := dm |}.

(** [delete_document(self, doc_id)] *)
Definition delete_document (doc_id : str) (l : loader) : loader * bool :=
  if negb (amem doc_id (documents_metadata l)) then (l, false)
  else (with_documents l (adel doc_id (documents_metadata l)), true).

Record stats : Type := mk_stats {
  total_documents : nat;
  total_chunks : nat;
  file_types : adict nat;
  vector_store_path : str;
  stats_chunk_size : nat;
  stats_chunk_overlap : nat
}.

(** The body of the second loop of [get_stats]. *)
Definition count_file_type (file_types : adict nat) (meta : entry) : adict nat :=
  let file_type :=
    match aget (lit "file_type") (e_metadata meta) with
    | Some t => t
    | None => lit "unknown"
    end in
  aset file_type
       (match aget file_type file_types with Some n => n | None => 0 end + 1)
       file_types.

(** [get_stats(self)] *)
Definition get_stats (l : loader) : stats :=
  let values := map snd (documents_metadata l) in
  {| total_documents := length (documents_metadata l);
     total_chunks := fold_left (fun n meta => n + e_chunks_count meta) values 0;
     file_types := fold_left count_file_type values [];
     vector_store_path := persist_directory l;
     stats_chunk_size := chunk_size l;
     stats_chunk_overlap := chunk_overlap l |}.

(** What [load_document] gets from the file system, the format loaders,
    the splitter and the clock. *)
Record load_request : Type := mk_load_request {
  lr_exists : bool;                (* file_path.exists() *)
  lr_path : str;                   (* str(file_path) *)
  lr_name : str;                   (* file_path.name *)
  lr_suffix : str;                 (* file_path.suffix *)
  lr_doc_id : str;                 (* self._generate_doc_id(file_path) *)
  lr_documents : option nat;       (* len(loader.load()), None when it raises *)
  lr_chunks : option nat;          (* len(chunks), None when splitting or storing raises *)
  lr_now : str;                    (* datetime.now().isoformat() *)
  lr_metadata : option (adict str) (* the metadata argument *)
}.

Inductive load_error : Type :=
| FileNotFound
| UnsupportedFileType (file_ext : str)
| NoContent
| CollaboratorFailed.

Definition supported_suffixes : list str :=
  [lit ".docx"; lit ".doc"; lit ".pdf"; lit ".md"; lit ".txt"].

(** [load_document(self, file_path, metadata)]: every exception is logged
    and raised again. *)
Definition load_document (r : load_request) (l : loader) : loader * (str + load_error) :=
  if negb (lr_exists r) then (l, inr FileNotFound)
  else
    let file_ext := lower (lr_suffix r) in
    if negb (existsb (str_eqb file_ext) supported_suffixes)
    then (l, inr (UnsupportedFileType file_ext))
    else
      match lr_documents r with
      | None => (l, inr CollaboratorFailed)
      | Some 0 => (l, inr NoContent)
      | Some _ =>
          let doc_metadata :=
            amerge [(lit "source", lr_path r); (lit "doc_id", lr_doc_id r);
                    (lit "file_name", lr_name r); (lit "file_type", file_ext);
                    (lit "loaded_at", lr_now r)]
                   (match lr_metadata r with Some m => m | None => [] end) in
          match lr_chunks r with
          | None => (l, inr CollaboratorFailed)
          | Some n =>
              (with_documents l
                 (aset (lr_doc_id r)
                       {| e_file_path := lr_path r; e_chunks_count := n;
                          e_metadata := doc_metadata; e_loaded_at := lr_now r |}
                       (documents_metadata l)),
               inl (lr_doc_id r))
          end
      end.

End Loader.

Module Main.

(** [delete_document(doc_id, loader)] of [backend/main.py]; the loader is
    the global [document_loader], [None] until start-up has set it.  The
    dependency raises 503 outside the handler's [try]; inside it every
    exception, the handler's own 404 included, is turned into a 500. *)
Definition delete_document (doc_id : str) (document_loader : option Loader.loader)
  : option Loader.loader * result str :=
  match document_loader with
  | None => (None, Raise (HTTPException 503 (lit "Document loader not initialized")))
  | Some l =>
      let (l', success) := Loader.delete_document doc_id l in
      if success
      then (Some l', Ok (lit "Document " ++ doc_id ++ lit " deleted successfully"))
      else (Some l',
            Raise (HTTPException 500
                     (exn_str (HTTPException 404 (lit "Document not found")))))
  end.

(** A retrieved document as the QA chain returns it. *)
Record source_document : Type := mk_source_document {
  page_content : str;
  sd_file_name : option str;
  sd_doc_id : option str;
  sd_page : option nat
}.

Record chat_source : Type := mk_chat_source {
  cs_content : str;
  cs_source_file : str;
  cs_doc_id : str;
  cs_page : nat
}.

(** The [source] dict built for one document in [chat_endpoint]. *)
Definition chat_source_of (doc : source_document) : chat_source :=
  {| cs_content :=
       if 200 <? length (page_content doc)
       then firstn 200 (page_content doc) ++ lit "..."
       else page_content doc;
     cs_source_file := match sd_file_name doc with Some f => f | None => lit "Unknown" end;
     cs_doc_id := match sd_doc_id doc with Some f => f | None => lit "Unknown" end;
     cs_page := match sd_page doc with Some n => n | None => 0 end |}.

(** [min(len(sources) / 5.0, 1.0) if sources else 0.0] *)
Definition chat_confidence (sources : list chat_source) : Q :=
  if truthy sources
  then py_min (inject_Z (Z.of_nat (length sources)) / 5)%Q 1%Q
  else 0%Q.

(** [ConnectionManager]: the list [active_connections]; a connection is
    named by a number, and [healthy c] tells whether [send_text] on it
    returns rather than raises. *)
Definition connect (websocket : nat) (active_connections : list nat) : list nat :=
  active_connections ++ [websocket].

(** [list.remove(x)]: the first occurrence goes, ValueError when absent. *)
Fixpoint list_remove (x : nat) (l : list nat) : option (list nat) :=
  match l with
  | [] => None
  | y :: l' =>
      if Nat.eqb x y then Some l'
      else match list_remove x l' with Some r => Some (y :: r) | None => None end
  end.

Definition disconnect (websocket : nat) (active_connections : list nat)
  : result (list nat) :=
  match list_remove websocket active_connections with
  | Some l => Ok l
  | None => Raise (ValueError (lit "list.remove(x): x not in list"))
  end.

(** [broadcast]: the [for] loop walks the list by position while the body
    removes from it.  [i] is the iterator's position, [delivered] the
    connections the message was sent to; the list never grows, so its
    initial length bounds the iterations.  No other coroutine is taken to
    touch the list during the call. *)
Fixpoint broadcast_loop (healthy : nat -> bool) (fuel i : nat)
    (active_connections delivered : list nat) : list nat * list nat :=
  match fuel with
  | 0 => (active_connections, delivered)
  | S fuel' =>
      match nth_error active_connections i with
      | None => (active_connections, delivered)
      | Some connection =>
          if healthy connection
          then broadcast_loop healthy fuel' (S i) active_connections
                              (delivered ++ [connection])
          else
            match list_remove connection active_connections with
            | Some l => broadcast_loop healthy fuel' (S i) l delivered
            | None => (active_connections, delivered)
            end
      end
  end.

Definition broadcast (healthy : nat -> bool) (active_connections : list nat)
  : list nat * list nat :=
  broadcast_loop healthy (length active_connections) 0 active_connections [].

(** The elements at the odd positions 1, 3, 5, ... of a list. *)
Fixpoint odd_positions (l : list nat) : list nat :=
  match l with
  | _ :: y :: l' => y :: odd_positions l'
  | _ => []
  end.

End Main.

(** ** [os.path.splitext] on POSIX and the dispatch of [extract_text] *)

(** [s.rfind(c)] for a character: the last position, [None] for -1. *)
Fixpoint rfind (c : ascii) (s : str) : option nat :=
  match s with
  | [] => None
  | x :: s' =>
      match rfind c s' with
      | Some i => Some (S i)
      | None => if Ascii.eqb x c then Some 0 else None
      end
  end.

(** The [while] loop of [genericpath._splitext] that skips leading dots:
    whether a character other than the dot is met before [dotIndex]. *)
Fixpoint skip_dots (fuel : nat) (p : str) (filenameIndex dotIndex : nat) : bool :=
  match fuel with
  | 0 => false
  | S fuel' =>
      if filenameIndex <? dotIndex then
        match nth_error p filenameIndex with
        | Some c =>
            if Ascii.eqb c "."%char then skip_dots fuel' p (S filenameIndex) dotIndex
            else true
        | None => true
        end
      else false
  end.

(** [os.path.splitext(p)] of [posixpath]: separator "/", no alternative
    separator, extension separator ".". *)
Definition splitext (p : str) : str * str :=
  match rfind "."%char p with
  | None => (p, [])
  | Some dotIndex =>
      let filenameIndex :=
        match rfind "/"%char p with Some sepIndex => S sepIndex | None => 0 end in
      if filenameIndex <=? dotIndex then
        if skip_dots (length p) p filenameIndex dotIndex
        then (firstn dotIndex p, skipn dotIndex p)
        else (p, [])
      else (p, [])
  end.

Inductive extractor : Type :=
| ExtractPdf
| ExtractTextFile
| ExtractWord.

(** [SimpleDocumentProcessor.extract_text(file_path)], up to the choice of
    the extracting method (the methods read the file and return its text,
    or a bracketed error text). *)
Definition extract_text (file_path : str) : result extractor :=
  let file_ext := lower (snd (splitext file_path)) in
  if str_eqb file_ext (lit ".pdf") then Ok ExtractPdf
  else if existsb (str_eqb file_ext) [lit ".txt"; lit ".md"] then Ok ExtractTextFile
  else if existsb (str_eqb file_ext) [lit ".docx"; lit ".doc"] then Ok ExtractWord
  else Raise (ValueError (lit "Unsupported file format: " ++ file_ext)).

(** [f"temp_{file.filename}"] *)
Definition temp_path (filename : str) : str := lit "temp_" ++ filename.

(** * Properties *)

(** ** Strings *)

Section StringFacts.

Lemma str_eqb_eq (a b : str) : str_eqb a b = true <-> a = b.
Proof.
  revert b; induction a as [|x a IH]; intros [|y b]; simpl; split;
    try congruence; try discriminate; auto.
  - rewrite andb_true_iff, Ascii.eqb_eq, IH. intros [-> ->]; reflexivity.
  - intros E; injection E as -> ->. rewrite Ascii.eqb_refl; simpl.
    apply IH; reflexivity.
Qed.

Lemma str_eqb_refl (a : str) : str_eqb a a = true.
Proof. apply str_eqb_eq; reflexivity. Qed.

Lemma str_eqb_neq (a b : str) : str_eqb a b = false <-> a <> b.
Proof.
  rewrite <- str_eqb_eq. destruct (str_eqb a b); split; congruence.
Qed.

Lemma startswith_spec (w t : str) :
  startswith w t = true <-> exists b, t = w ++ b.
Proof.
  revert t; induction w as [|x w IH]; intros t; simpl.
  - split; [intros _; exists t; reflexivity | reflexivity].
  - destruct t as [|y t].
    + split; [discriminate | intros [b Hb]; discriminate].
    + rewrite andb_true_iff, Ascii.eqb_eq, IH. split.
      * intros [-> [b ->]]. exists b; reflexivity.
      * intros [b Hb]. injection Hb as -> ->. split; [reflexivity | eauto].
Qed.

(** [w in t] holds exactly when [t] splits around an occurrence of [w]. *)
Lemma contains_spec (w t : str) :
  contains w t = true <-> exists a b, t = a ++ w ++ b.
Proof.
  induction t as [|y t IH].
  - simpl. rewrite orb_false_r, startswith_spec. split.
    + intros [b Hb]. exists [], b; exact Hb.
    + intros [a [b Hb]]. destruct a; simpl in Hb.
      * exists b; exact Hb.
      * discriminate.
  - cbn [contains]. rewrite orb_true_iff, startswith_spec, IH. split.
    + intros [[b Hb] | [a [b Hb]]].
      * exists [], b; exact Hb.
      * exists (y :: a), b. simpl. f_equal. exact Hb.
    + intros [[|x a] [b Hb]]; simpl in Hb.
      * left. exists b; exact Hb.
      * right. injection Hb as _ Hb. exists a, b; exact Hb.
Qed.

Lemma contains_infix (u w t : str) (a b : str) :
  w = a ++ u ++ b -> contains w t = true -> contains u t = true.
Proof.
  intros -> H. apply contains_spec in H as [c [d ->]].
  apply contains_spec. exists (c ++ a), (b ++ d).
  repeat rewrite <- app_assoc. reflexivity.
Qed.

Lemma contains_nil (t : str) : contains [] t = true.
Proof. destruct t; reflexivity. Qed.

Lemma dropwhile_split (p : ascii -> bool) (s : str) :
  exists a, s = a ++ dropwhile p s /\ forallb p a = true.
Proof.
  induction s as [|c s [a [E Ha]]]; simpl.
  - exists []; split; reflexivity.
  - destruct (p c) eqn:Pc.
    + exists (c :: a). simpl. rewrite Pc, Ha. split; [f_equal; exact E | reflexivity].
    + exists []. split; reflexivity.
Qed.

Lemma dropwhile_head (p : ascii -> bool) (s : str) :
  match dropwhile p s with [] => True | c :: _ => p c = false end.
Proof.
  induction s as [|c s IH]; simpl; [exact I|].
  destruct (p c) eqn:Pc; [exact IH | exact Pc].
Qed.

Lemma dropwhile_all (p : ascii -> bool) (s : str) :
  forallb p s = true -> dropwhile p s = [].
Proof.
  induction s as [|c s IH]; simpl; [reflexivity|].
  destruct (p c); simpl; [exact IH | discriminate].
Qed.

Lemma forallb_rev (p : ascii -> bool) (s : str) :
  forallb p (rev s) = forallb p s.
Proof.
  induction s as [|c s IH]; simpl; [reflexivity|].
  rewrite forallb_app, IH. simpl. rewrite andb_true_r. apply andb_comm.
Qed.

(** [strip] removes a prefix and a suffix made of the stripped characters,
    and what is left neither starts nor ends with one. *)
Lemma strip_set_spec (p : ascii -> bool) (s : str) :
  exists a b,
    s = a ++ strip_set p s ++ b /\ forallb p a = true /\ forallb p b = true /\
    match strip_set p s with [] => True | c :: _ => p c = false end /\
    match rev (strip_set p s) with [] => True | c :: _ => p c = false end.
Proof.
  unfold strip_set.
  destruct (dropwhile_split p s) as [a [Ea Ha]].
  destruct (dropwhile_split p (rev (dropwhile p s))) as [b [Eb Hb]].
  exists a, (rev b). repeat split.
  - rewrite Ea at 1. f_equal. rewrite <- rev_app_distr, <- Eb, rev_involutive.
    reflexivity.
  - exact Ha.
  - rewrite forallb_rev; exact Hb.
  - pose proof (dropwhile_head p s) as Hh.
    set (m := dropwhile p (rev (dropwhile p s))) in *.
    destruct (rev m) as [|c r] eqn:Er; [exact I|].
    assert (Es : dropwhile p s = (c :: r) ++ rev b).
    { rewrite <- (rev_involutive (dropwhile p s)), Eb, rev_app_distr, Er.
      reflexivity. }
    rewrite Es in Hh. exact Hh.
  - rewrite rev_involutive. apply dropwhile_head.
Qed.

Lemma strip_set_all (p : ascii -> bool) (s : str) :
  forallb p s = true -> strip_set p s = [].
Proof.
  intros H. unfold strip_set. rewrite (dropwhile_all p s H). reflexivity.
Qed.

Lemma contains_strip (p : ascii -> bool) (s t : str) :
  contains s t = true -> contains (strip_set p s) t = true.
Proof.
  destruct (strip_set_spec p s) as [a [b [E _]]].
  apply contains_infix with (a := a) (b := b). exact E.
Qed.

Lemma split_blank (s : str) : forallb isspace s = true -> split s = [].
Proof.
  induction s as [|c s IH]; simpl; [reflexivity|].
  destruct (isspace c); simpl; [exact IH | discriminate].
Qed.

Lemma isspace_lower_char (c : ascii) : isspace (lower_char c) = isspace c.
Proof.
  destruct c as [[] [] [] [] [] [] [] []]; reflexivity.
Qed.

Lemma forallb_isspace_lower (s : str) :
  forallb isspace (lower s) = forallb isspace s.
Proof.
  induction s as [|c s IH]; simpl; [reflexivity|].
  rewrite isspace_lower_char, IH. reflexivity.
Qed.

End StringFacts.

(** ** The scan of the scorer *)

Section Scan.

Variable question : str.

Local Abbreviation rescored := (rescored question).
Local Abbreviation selected := (selected question).
Local Abbreviation rescored_doc := (rescored_doc question).

Lemma selected_matches (c : chunk) :
  selected c = (0 <? count_matches (question_words question) (lower (text c))).
Proof.
  unfold selected, score_chunk.
  destruct (0 <? count_matches _ _); reflexivity.
Qed.

Lemma rescored_frame (c : chunk) :
  id (rescored c) = id c /\ text (rescored c) = text c /\
  metadata (rescored c) = metadata c.
Proof.
  unfold rescored, score_chunk.
  destruct (0 <? count_matches _ _); simpl; auto.
Qed.

Lemma rescored_score (c : chunk) :
  relevance_score (rescored c) =
    if selected c
    then Some (py_div (boosted_matches question (lower (text c)))
                      (length (question_words question)))
    else relevance_score c.
Proof.
  unfold rescored, selected, score_chunk.
  destruct (0 <? count_matches _ _); reflexivity.
Qed.

Lemma scan_chunks_eq (cs : list chunk) :
  scan_chunks question cs = (map rescored cs, map rescored (filter selected cs)).
Proof.
  induction cs as [|c cs IH]; simpl; [reflexivity|].
  rewrite IH.
  assert (Ec : score_chunk question c = (rescored c, selected c))
    by (unfold rescored, selected; destruct (score_chunk question c); reflexivity).
  rewrite Ec. destruct (selected c); reflexivity.
Qed.

Lemma scan_docs_eq (kb : KnowledgeBase) :
  scan_docs question kb =
    (map (fun kd => (fst kd, rescored_doc (snd kd))) kb,
     flat_map (fun kd => map rescored (filter selected (chunks (snd kd)))) kb).
Proof.
  induction kb as [|[k d] kb IH]; simpl; [reflexivity|].
  rewrite scan_chunks_eq, IH. reflexivity.
Qed.

(** Every chunk appended to [relevant_chunks] is a selected chunk of the
    knowledge base, as rescored. *)
Lemma scan_docs_relevant (kb : KnowledgeBase) (c' : chunk) :
  In c' (snd (scan_docs question kb)) <->
  exists k d c, In (k, d) kb /\ In c (chunks d) /\ selected c = true /\ c' = rescored c.
Proof.
  rewrite scan_docs_eq; simpl. rewrite in_flat_map. split.
  - intros [[k d] [Hkd Hc]]. simpl in Hc. apply in_map_iff in Hc as [c [<- Hc]].
    apply filter_In in Hc as [Hc Hs]. exists k, d, c; auto.
  - intros [k [d [c [Hkd [Hc [Hs ->]]]]]]. exists (k, d). split; [exact Hkd|].
    simpl. apply in_map. apply filter_In; auto.
Qed.

Lemma scan_docs_none (kb : KnowledgeBase) :
  (forall k d c, In (k, d) kb -> In c (chunks d) -> selected c = false) ->
  scan_docs question kb = (kb, []).
Proof.
  intros H. induction kb as [|[k d] kb IH]; simpl; [reflexivity|].
  rewrite scan_chunks_eq, IH by (intros; eapply H; [right|]; eassumption).
  assert (E : forall cs, (forall c, In c cs -> selected c = false) ->
                         map rescored cs = cs /\ filter selected cs = []).
  { induction cs as [|c cs IHc]; intros Hc; simpl; [auto|].
    destruct (IHc (fun x Hx => Hc x (or_intror Hx))) as [E1 E2].
    pose proof (Hc c (or_introl eq_refl)) as Hs. rewrite Hs, E1. split; [|exact E2].
    f_equal. unfold rescored. unfold selected in Hs.
    unfold score_chunk in *. destruct (0 <? count_matches _ _); simpl in *;
      [discriminate | reflexivity]. }
  destruct (E (chunks d)) as [E1 E2]; [intros; eapply H; [left; reflexivity|assumption]|].
  rewrite E1, E2. simpl. destruct d; reflexivity.
Qed.

End Scan.

Lemma count_matches_le (words : list str) (t : str) :
  count_matches words t <= length words.
Proof. unfold count_matches. apply filter_length_le. Qed.

(** The division of the score is never by zero: a positive match count
    needs a token. *)
Lemma matched_has_token (question : str) (c : chunk) :
  selected question c = true -> 0 < length (question_words question).
Proof.
  rewrite selected_matches. intros H. apply Nat.ltb_lt in H.
  pose proof (count_matches_le (question_words question) (lower (text c))). lia.
Qed.

(** ** Sorting and slicing *)

Lemma insert_desc_perm (x : chunk) (l : list chunk) :
  Permutation (insert_desc x l) (x :: l).
Proof.
  induction l as [|y l IH]; simpl; [reflexivity|].
  destruct (Qle_bool (sort_key y) (sort_key x)); [reflexivity|].
  rewrite IH. apply perm_swap.
Qed.

Lemma sort_desc_perm (l : list chunk) : Permutation (sort_desc l) l.
Proof.
  induction l as [|x l IH]; simpl; [reflexivity|].
  rewrite insert_desc_perm. constructor. exact IH.
Qed.

Lemma insert_desc_sorted (x : chunk) (l : list chunk) :
  StronglySorted desc l -> StronglySorted desc (insert_desc x l).
Proof.
  induction l as [|y l IH]; intros Hs; simpl.
  - constructor; constructor.
  - inversion Hs as [|? ? Hl Hy]; subst.
    destruct (Qle_bool (sort_key y) (sort_key x)) eqn:E.
    + apply Qle_bool_iff in E. constructor; [exact Hs|].
      constructor; [exact E|].
      eapply Forall_impl; [|exact Hy]. unfold desc; intros z Hz.
      eapply Qle_trans; eassumption.
    + constructor; [apply IH; exact Hl|].
      assert (Hxy : desc y x).
      { unfold desc. destruct (Qlt_le_dec (sort_key x) (sort_key y)) as [L|L].
        - apply Qlt_le_weak; exact L.
        - apply Qle_bool_iff in L. congruence. }
      eapply Permutation_Forall; [symmetry; apply insert_desc_perm|].
      constructor; assumption.
Qed.

Lemma sort_desc_sorted (l : list chunk) : StronglySorted desc (sort_desc l).
Proof.
  induction l as [|x l IH]; simpl; [constructor|].
  apply insert_desc_sorted; exact IH.
Qed.

Lemma firstn_In {A} (n : nat) (l : list A) (x : A) : In x (firstn n l) -> In x l.
Proof.
  intros H. rewrite <- (firstn_skipn n l). apply in_or_app. left; exact H.
Qed.

Lemma firstn_sorted (n : nat) (l : list chunk) :
  StronglySorted desc l -> StronglySorted desc (firstn n l).
Proof.
  revert n; induction l as [|x l IH]; intros [|n] Hs; simpl; try constructor.
  - inversion Hs; subst. apply IH; assumption.
  - inversion Hs as [|? ? _ Hx]; subst.
    rewrite Forall_forall in *. intros y Hy. apply Hx.
    eapply firstn_In; exact Hy.
Qed.

Lemma slice_to_firstn {A} (l : list A) (hi : Z) :
  slice_to l hi = firstn (clamp_index (length l) hi) l.
Proof.
  unfold slice_to, slice. replace (clamp_index (length l) 0) with 0.
  - simpl. rewrite Nat.sub_0_r. reflexivity.
  - unfold clamp_index. simpl. destruct (length l); reflexivity.
Qed.

Lemma slice_to_length {A} (l : list A) (hi : Z) :
  (0 <= hi)%Z -> length (slice_to l hi) <= Z.to_nat hi.
Proof.
  intros H. rewrite slice_to_firstn, length_firstn.
  unfold clamp_index. destruct (Z.ltb_spec hi 0); lia.
Qed.

Lemma slice_to_In {A} (l : list A) (hi : Z) (x : A) :
  In x (slice_to l hi) -> In x l.
Proof. rewrite slice_to_firstn. apply firstn_In. Qed.

(** ** Arithmetic of scores *)

Lemma inject_nat_pos (n : nat) : 0 < n -> (0 < inject_Z (Z.of_nat n))%Q.
Proof.
  intros H. change 0%Q with (inject_Z 0). rewrite <- Zlt_Qlt. lia.
Qed.

Lemma py_div_nonneg (a b : nat) : (0 <= py_div a b)%Q.
Proof.
  unfold py_div. destruct b as [|b].
  - unfold Qdiv, Qinv, Qmult, Qle; simpl. lia.
  - apply Qle_shift_div_l; [apply inject_nat_pos; lia|].
    rewrite Qmult_0_l. change 0%Q with (inject_Z 0). rewrite <- Zle_Qle. lia.
Qed.

Lemma py_div_mono (a a' b : nat) : a <= a' -> (py_div a b <= py_div a' b)%Q.
Proof.
  intros H. unfold py_div. destruct b as [|b].
  - unfold Qdiv, Qinv, Qmult, Qle; simpl. lia.
  - apply Qle_shift_div_l; [apply inject_nat_pos; lia|].
    unfold Qdiv. rewrite <- Qmult_assoc, (Qmult_comm (/ _)), Qmult_inv_r, Qmult_1_r.
    + rewrite <- Zle_Qle. lia.
    + intros E. pose proof (inject_nat_pos (n := S b)) as P.
      rewrite E in P. specialize (P ltac:(lia)). inversion P.
Qed.

Lemma py_div_bonus_le_3 (n : nat) : 0 < n -> (py_div (n + 2) n <= 3)%Q.
Proof.
  intros H. unfold py_div. apply Qle_shift_div_r; [apply inject_nat_pos; exact H|].
  change 3%Q with (inject_Z 3). rewrite <- inject_Z_mult, <- Zle_Qle. lia.
Qed.

Lemma boosted_matches_le (question t : str) :
  boosted_matches question t <= length (question_words question) + 2.
Proof.
  unfold boosted_matches.
  pose proof (count_matches_le (question_words question) t).
  destruct (phrase_hit question t); lia.
Qed.

(** ** The relevance scorer *)

(** What the scan puts in a returned chunk. *)
Lemma ranked_chunk_inv (question : str) (max_chunks : Z) (kb : KnowledgeBase) (c : chunk) :
  In c (snd (find_relevant_chunks question max_chunks kb)) ->
  exists k d c0,
    In (k, d) kb /\ In c0 (chunks d) /\ selected question c0 = true /\
    c = rescored question c0.
Proof.
  unfold find_relevant_chunks.
  destruct (scan_docs question kb) as [kb' rel] eqn:E. simpl. intros H.
  apply slice_to_In in H.
  apply (Permutation_in _ (sort_desc_perm rel)) in H.
  replace rel with (snd (scan_docs question kb)) in H by (rewrite E; reflexivity).
  apply scan_docs_relevant in H. exact H.
Qed.

(** C4.  For a non-negative limit (the default is 5), every chunk that
    [find_relevant_chunks] returns has at least one token match, the query
    has at least one token, the chunk's score is the final value of
    [matches] (token matches plus the phrase bonus) divided by the token
    count and is non-negative; the scores do not increase along the
    returned list; and the list is no longer than the limit. *)
Theorem rank_postcondition (question : str) (max_chunks : Z) (kb : KnowledgeBase) :
  (0 <= max_chunks)%Z ->
  let ranked := snd (find_relevant_chunks question max_chunks kb) in
  Forall (fun c =>
            0 < count_matches (question_words question) (lower (text c)) /\
            0 < length (question_words question) /\
            relevance_score c =
              Some (py_div (boosted_matches question (lower (text c)))
                           (length (question_words question))) /\
            (0 <= sort_key c)%Q) ranked /\
  StronglySorted desc ranked /\
  length ranked <= Z.to_nat max_chunks.
Proof.
  intros Hm ranked. repeat split.
  - apply Forall_forall. intros c Hc.
    apply ranked_chunk_inv in Hc as [k [d [c0 [_ [_ [Hs ->]]]]]].
    destruct (rescored_frame question c0) as [_ [Et _]].
    pose proof (rescored_score question c0) as Esc. rewrite Hs in Esc.
    rewrite Et. repeat split.
    + rewrite selected_matches in Hs. apply Nat.ltb_lt; exact Hs.
    + eapply matched_has_token; exact Hs.
    + exact Esc.
    + unfold sort_key. rewrite Esc. apply py_div_nonneg.
  - subst ranked. unfold find_relevant_chunks.
    destruct (scan_docs question kb) as [kb' rel]. simpl.
    rewrite slice_to_firstn. apply firstn_sorted, sort_desc_sorted.
  - subst ranked. unfold find_relevant_chunks.
    destruct (scan_docs question kb) as [kb' rel]. simpl.
    apply slice_to_length; exact Hm.
Qed.

Lemma rank_postcondition_witness :
  (0 <= default_max_chunks)%Z /\
  let ranked := snd (find_relevant_chunks (lit "hard hats") default_max_chunks sample_kb) in
  Forall (fun c =>
            0 < count_matches (question_words (lit "hard hats")) (lower (text c)) /\
            0 < length (question_words (lit "hard hats")) /\
            relevance_score c =
              Some (py_div (boosted_matches (lit "hard hats") (lower (text c)))
                           (length (question_words (lit "hard hats")))) /\
            (0 <= sort_key c)%Q) ranked /\
  StronglySorted desc ranked /\
  length ranked <= Z.to_nat default_max_chunks.
Proof.
  split.
  - unfold default_max_chunks; lia.
  - apply (rank_postcondition (lit "hard hats") sample_kb (max_chunks := default_max_chunks)).
    unfold default_max_chunks; lia.
Defined.

Lemma phrase_hit_iff (question t : str) :
  phrase_hit question t = true <->
  exists phrase, In phrase (split (lower question)) /\ contains phrase t = true.
Proof. unfold phrase_hit. apply existsb_exists. Qed.

(** A segment of the query that occurs in the chunk text makes its token
    occur there too: the token is a substring of the segment. *)
Lemma phrase_hit_token (question t : str) :
  phrase_hit question t = true -> 0 < count_matches (question_words question) t.
Proof.
  intros H. apply phrase_hit_iff in H as [phrase [Hin Hc]].
  unfold count_matches, question_words.
  assert (Hf : In (strip_chars punctuation phrase)
                 (filter (fun word => contains word t)
                    (map (strip_chars punctuation) (split (lower question))))).
  { apply filter_In. split; [apply in_map; exact Hin|].
    apply contains_strip; exact Hc. }
  destruct (filter _ _); [destruct Hf | simpl; lia].
Qed.

Lemma no_phrase_no_bonus (question t : str) :
  phrase_hit question t = false ->
  boosted_matches question t = count_matches (question_words question) t.
Proof. unfold boosted_matches. intros ->. reflexivity. Qed.

(** C5.  If some whitespace-delimited segment of the lowercased query
    occurs verbatim in the lowercased chunk text, the chunk is selected and
    its score is computed from the token matches plus exactly 2, however
    many segments occur. *)
Theorem phrase_bonus (question : str) (c : chunk) :
  (exists phrase,
      In phrase (split (lower question)) /\ contains phrase (lower (text c)) = true) ->
  let matches := count_matches (question_words question) (lower (text c)) in
  boosted_matches question (lower (text c)) = matches + 2 /\
  score_chunk question c =
    (set_score c (py_div (matches + 2) (length (question_words question))), true).
Proof.
  intros H matches. apply phrase_hit_iff in H.
  pose proof (phrase_hit_token _ _ H) as Hpos.
  assert (Hb : boosted_matches question (lower (text c)) = matches + 2).
  { unfold boosted_matches. rewrite H. reflexivity. }
  split; [exact Hb|].
  unfold score_chunk. fold matches. rewrite Hb.
  apply Nat.ltb_lt in Hpos. fold matches in Hpos. rewrite Hpos. reflexivity.
Qed.

Lemma phrase_bonus_witness :
  let matches := count_matches (question_words (lit "hard hats")) (lower (text sample_chunk)) in
  boosted_matches (lit "hard hats") (lower (text sample_chunk)) = matches + 2 /\
  score_chunk (lit "hard hats") sample_chunk =
    (set_score sample_chunk
       (py_div (matches + 2) (length (question_words (lit "hard hats")))), true).
Proof.
  apply (phrase_bonus (lit "hard hats") sample_chunk).
  exists (lit "hard"). split; [vm_compute; auto | vm_compute; reflexivity].
Defined.

(** C10.  The score is not bounded by 1: the single-token query "ppe"
    scores 3 on a chunk that contains it.  For every query and every
    selected chunk the score is at most (tokens + 2) / tokens, hence at
    most 3. *)
Theorem score_bound :
  (exists question c s,
      selected question c = true /\
      relevance_score (rescored question c) = Some s /\
      length (question_words question) = 1 /\ (s == 3)%Q /\ (1 < s)%Q) /\
  (forall question c,
      selected question c = true ->
      exists s,
        relevance_score (rescored question c) = Some s /\
        (s <= py_div (length (question_words question) + 2)
                     (length (question_words question)))%Q /\
        (s <= 3)%Q).
Proof.
  split.
  - exists (lit "ppe"), sample_chunk, (py_div 3 1).
    repeat split; vm_compute; congruence.
  - intros question c Hs.
    pose proof (rescored_score question c) as E. rewrite Hs in E.
    eexists. split; [exact E|].
    pose proof (matched_has_token _ _ Hs) as Hn.
    assert (Hle : (py_div (boosted_matches question (lower (text c)))
                          (length (question_words question))
                   <= py_div (length (question_words question) + 2)
                             (length (question_words question)))%Q)
      by (apply py_div_mono, boosted_matches_le).
    split; [exact Hle|].
    eapply Qle_trans; [exact Hle|]. apply py_div_bonus_le_3; exact Hn.
Qed.

Lemma score_bound_witness :
  exists s,
    relevance_score (rescored (lit "hard hats") sample_chunk) = Some s /\
    (s <= py_div (length (question_words (lit "hard hats")) + 2)
                 (length (question_words (lit "hard hats"))))%Q /\
    (s <= 3)%Q.
Proof.
  apply (proj2 score_bound (lit "hard hats") sample_chunk). vm_compute. reflexivity.
Defined.

Lemma Forall2_map_self {A B} (R : A -> B -> Prop) (f : A -> B) (l : list A) :
  (forall x, In x l -> R x (f x)) -> Forall2 R l (map f l).
Proof.
  induction l as [|x l IH]; intros H; simpl; constructor.
  - apply H; left; reflexivity.
  - apply IH. intros y Hy. apply H; right; exact Hy.
Qed.

Lemma find_relevant_chunks_fst (question : str) (max_chunks : Z) (kb : KnowledgeBase) :
  fst (find_relevant_chunks question max_chunks kb) =
    map (fun kd => (fst kd, rescored_doc question (snd kd))) kb.
Proof.
  unfold find_relevant_chunks. rewrite scan_docs_eq. reflexivity.
Qed.

Lemma no_token_no_selection (question : str) (c : chunk) :
  question_words question = [] -> selected question c = false.
Proof.
  intros E. rewrite selected_matches, E. reflexivity.
Qed.

Lemma find_relevant_chunks_none (question : str) (max_chunks : Z) (kb : KnowledgeBase) :
  (forall k d c, In (k, d) kb -> In c (chunks d) -> selected question c = false) ->
  find_relevant_chunks question max_chunks kb = (kb, []).
Proof.
  intros H. unfold find_relevant_chunks. rewrite (scan_docs_none _ _ H).
  simpl. rewrite slice_to_firstn, firstn_nil. reflexivity.
Qed.

(** C1, as the code has it.  Each token is its whitespace-delimited
    segment of the lowercased query with the characters . , ! ? removed
    from both ends; a query without a non-whitespace character has no
    token; and without a token the scorer returns the empty list and leaves
    the knowledge base as it was. *)
Theorem query_normalization (question : str) :
  Forall2 (fun segment token =>
             exists a b,
               segment = a ++ token ++ b /\
               forallb (mem_char punctuation) a = true /\
               forallb (mem_char punctuation) b = true /\
               match token with [] => True | c :: _ => mem_char punctuation c = false end /\
               match rev token with [] => True | c :: _ => mem_char punctuation c = false end)
          (split (lower question)) (question_words question) /\
  (forallb isspace question = true -> question_words question = []) /\
  (question_words question = [] ->
   forall max_chunks kb, find_relevant_chunks question max_chunks kb = (kb, [])).
Proof.
  repeat split.
  - unfold question_words. apply Forall2_map_self. intros segment _.
    apply strip_set_spec.
  - intros H. unfold question_words.
    rewrite split_blank; [reflexivity|]. rewrite forallb_isspace_lower; exact H.
  - intros E max_chunks kb. apply find_relevant_chunks_none.
    intros k d c _ _. apply no_token_no_selection; exact E.
Qed.

Lemma query_normalization_witness :
  question_words (lit "   ") = [] /\
  forall max_chunks kb, find_relevant_chunks (lit "   ") max_chunks kb = (kb, []).
Proof.
  destruct (query_normalization (lit "   ")) as [_ [Hblank Hnone]].
  split.
  - apply Hblank. reflexivity.
  - apply Hnone. apply Hblank. reflexivity.
Defined.

(** C1 as stated fails twice: punctuation is stripped from the front of a
    token as well, and a token that is empty after stripping is kept, so a
    query of punctuation alone has a token list where the stated rule has
    none, and the scorer then returns chunks. *)
Lemma query_normalization_counterexample :
  question_words (lit "?ppe") <> spec_question_words (lit "?ppe") /\
  spec_question_words (lit "!") = [] /\
  question_words (lit "!") <> [] /\
  snd (find_relevant_chunks (lit "!") default_max_chunks sample_kb) <> [].
Proof.
  repeat split; vm_compute; congruence.
Qed.

(** C2, as the code has it.  A call of the scorer keeps the documents, in
    order, with their keys, metadata, full text and sections, and keeps the
    identifier, text and metadata of every chunk; it writes the new score
    into every stored chunk it selects and leaves the score field of the
    others as it was; the chunks it returns are chunks of the knowledge
    base as the call leaves it. *)
Theorem ranking_frame (question : str) (max_chunks : Z) (kb : KnowledgeBase) :
  let kb' := fst (find_relevant_chunks question max_chunks kb) in
  let ranked := snd (find_relevant_chunks question max_chunks kb) in
  Forall2 (fun old new =>
             fst new = fst old /\
             doc_metadata_of (snd new) = doc_metadata_of (snd old) /\
             full_text (snd new) = full_text (snd old) /\
             sections (snd new) = sections (snd old) /\
             Forall2 (fun c c' =>
                        id c' = id c /\ text c' = text c /\ metadata c' = metadata c /\
                        relevance_score c' =
                          if selected question c
                          then Some (py_div (boosted_matches question (lower (text c)))
                                            (length (question_words question)))
                          else relevance_score c)
                     (chunks (snd old)) (chunks (snd new)))
          kb kb' /\
  (forall c', In c' ranked -> exists k d, In (k, d) kb' /\ In c' (chunks d)).
Proof.
  intros kb' ranked. subst kb' ranked. rewrite find_relevant_chunks_fst. split.
  - apply Forall2_map_self. intros [k d] _. simpl. repeat split.
    apply Forall2_map_self. intros c _.
    destruct (rescored_frame question c) as [E1 [E2 E3]].
    repeat split; try assumption. apply rescored_score.
  - intros c' Hc. apply ranked_chunk_inv in Hc as [k [d [c0 [Hkd [Hc0 [_ ->]]]]]].
    exists k, (rescored_doc question d). split.
    + apply (in_map (fun kd => (fst kd, rescored_doc question (snd kd))) _ _ Hkd).
    + simpl. apply in_map; exact Hc0.
Qed.

(** C2 as stated fails: the score of a selected chunk is written into the
    stored chunk, so the knowledge base after the query differs from the
    one before. *)
Lemma ranking_frame_counterexample :
  fst (find_relevant_chunks (lit "hard hats") default_max_chunks sample_kb) <> sample_kb /\
  map relevance_score (flat_map (fun kd => chunks (snd kd)) sample_kb) = [None; None; None] /\
  map relevance_score
      (flat_map (fun kd => chunks (snd kd))
         (fst (find_relevant_chunks (lit "hard hats") default_max_chunks sample_kb)))
    = [Some (py_div 4 2); Some (py_div 3 2); None].
Proof.
  split; [|split].
  - intros E.
    apply (f_equal (fun kb => map relevance_score (flat_map (fun kd => chunks (snd kd)) kb))) in E.
    vm_compute in E. discriminate E.
  - vm_compute. reflexivity.
  - vm_compute. reflexivity.
Qed.

(** ** The answer pipeline *)

Lemma Qle_bool_false (a b : Q) : Qle_bool a b = false -> (b < a)%Q.
Proof.
  intros H. destruct (Qlt_le_dec b a) as [L|L]; [exact L|].
  apply Qle_bool_iff in L. congruence.
Qed.

(** The nested built-ins of the source compute the clamp. *)
Lemma py_clamp (s lo hi : Q) :
  (lo <= hi)%Q -> (py_min hi (py_max lo s) == clamp s lo hi)%Q.
Proof.
  intros Hlh. unfold py_min, py_max, clamp.
  destruct (Qle_bool s lo) eqn:E1.
  - apply Qle_bool_iff in E1.
    pose proof (Q.max_l lo s E1) as Em.
    destruct (Qle_bool hi lo) eqn:E2.
    + apply Qle_bool_iff in E2. symmetry. apply Q.min_l.
      eapply Qle_trans; [exact E2|]. apply Q.le_max_l.
    + symmetry. rewrite <- Em at 2. apply Q.min_r. rewrite Em. exact Hlh.
  - apply Qle_bool_false in E1.
    pose proof (Q.max_r lo s (Qlt_le_weak _ _ E1)) as Em.
    destruct (Qle_bool hi s) eqn:E2.
    + apply Qle_bool_iff in E2. symmetry. apply Q.min_l.
      eapply Qle_trans; [exact E2|]. apply Q.le_max_r.
    + apply Qle_bool_false in E2. symmetry. rewrite <- Em at 2.
      apply Q.min_r. rewrite Em. apply Qlt_le_weak; exact E2.
Qed.

Lemma clamp_bounds (s lo hi : Q) :
  (lo <= hi)%Q -> (lo <= clamp s lo hi <= hi)%Q.
Proof.
  intros H. unfold clamp. split.
  - apply Q.min_glb; [exact H | apply Q.le_max_l].
  - apply Q.le_min_l.
Qed.

Lemma numbered_extends (cs : list chunk) (i : nat) (acc : str) :
  exists t, numbered i cs acc = acc ++ t.
Proof.
  revert i acc; induction cs as [|c cs IH]; intros i acc; cbn [numbered].
  - exists []. rewrite app_nil_r; reflexivity.
  - destruct (IH (S i) (acc ++ str_of_nat i ++ lit ". " ++ firstn 300 (text c)
                          ++ lit "..." ++ [nl; nl])) as [t Et].
    rewrite Et. rewrite <- app_assoc. eexists; reflexivity.
Qed.

(** The extractive strategy answers every non-empty list. *)
Lemma generate_simple_response_ok (top : chunk) (rest : list chunk) :
  exists a,
    generate_simple_response (top :: rest) = Ok a /\
    response a <> [] /\
    confidence a = py_min (8 # 10) (py_max (5 # 10) (score_or_default top)) /\
    sources a = map source_of (firstn 3 (top :: rest)).
Proof.
  unfold generate_simple_response.
  assert (Ht : exists tl, firstn 3 (top :: rest) = top :: tl)
    by (simpl; eexists; reflexivity).
  destruct Ht as [tl Etl]. rewrite Etl.
  eexists. split; [reflexivity|]. cbn [response confidence sources].
  split; [|split; reflexivity].
  destruct tl.
  - unfold preamble. simpl. discriminate.
  - destruct (numbered_extends (top :: c :: tl) 1 preamble) as [t Et].
    rewrite Et. unfold preamble. simpl. discriminate.
Qed.

Lemma strip_truthy_nonblank (q : str) :
  forallb isspace q = true -> strip q = [].
Proof. apply strip_set_all. Qed.

Lemma find_relevant_chunks_nil (question : str) (max_chunks : Z) :
  find_relevant_chunks question max_chunks [] = ([], []).
Proof. apply find_relevant_chunks_none. intros k d c []. Qed.

Lemma find_relevant_chunks_empty_question (max_chunks : Z) (kb : KnowledgeBase) :
  find_relevant_chunks [] max_chunks kb = (kb, []).
Proof.
  apply find_relevant_chunks_none. intros k d c _ _.
  apply no_token_no_selection. reflexivity.
Qed.

(** C9.  A query that is absent, empty or all whitespace is answered with
    the fixed request for a question, confidence 0 and no sources; the
    knowledge base is returned as it was and no call is made, whatever the
    knowledge base and the generator are; the text differs from the one
    given when nothing matches. *)
Theorem blank_query (openai_client : option TextGenerator) (query : option str)
    (kb : KnowledgeBase) :
  forallb isspace (query_get query) = true ->
  chat_with_agent openai_client query kb = (kb, please_provide, []) /\
  response please_provide = lit "Please provide a question." /\
  (confidence please_provide == 0)%Q /\
  sources please_provide = [] /\
  response please_provide <> response not_found.
Proof.
  intros H. unfold chat_with_agent.
  rewrite (strip_truthy_nonblank _ H). simpl.
  repeat split; try reflexivity. vm_compute. discriminate.
Qed.

Lemma blank_query_witness :
  chat_with_agent None (Some (lit "   ")) sample_kb = (sample_kb, please_provide, []) /\
  response please_provide = lit "Please provide a question." /\
  (confidence please_provide == 0)%Q /\
  sources please_provide = [] /\
  response please_provide <> response not_found.
Proof.
  apply (blank_query None (Some (lit "   ")) sample_kb). reflexivity.
Defined.

(** C7, as the code has it.  For a query with a non-whitespace character
    whose tokens occur in no chunk, the answer has confidence 0 and no
    sources, and the knowledge base is unchanged.  When the knowledge base
    holds a document, the text is the fixed not-found message and only the
    scorer has been called; when it holds none, the text is the fixed
    message that the manual is not loaded, and nothing has been called. *)
Theorem no_match_answer (openai_client : option TextGenerator) (query : option str)
    (kb : KnowledgeBase) :
  let question := strip (query_get query) in
  question <> [] ->
  (forall k d c, In (k, d) kb -> In c (chunks d) ->
                 count_matches (question_words question) (lower (text c)) = 0) ->
  chat_with_agent openai_client query kb =
    (kb, (if truthy kb then not_found else no_manual),
         (if truthy kb then [CallScorer] else [])) /\
  (confidence not_found == 0)%Q /\ sources not_found = [] /\
  (confidence no_manual == 0)%Q /\ sources no_manual = [].
Proof.
  intros question Hq Hno. split; [|repeat split; reflexivity].
  unfold chat_with_agent. fold question.
  destruct question as [|c0 q0] eqn:Eq; [congruence|]. simpl truthy. simpl negb.
  cbv iota. destruct kb as [|kd kb0] eqn:Ekb; [reflexivity|].
  simpl truthy. simpl negb. cbv iota.
  rewrite find_relevant_chunks_none; [reflexivity|].
  intros k d c Hkd Hc. rewrite selected_matches, (Hno k d c Hkd Hc). reflexivity.
Qed.

Lemma no_match_answer_witness :
  chat_with_agent None (Some (lit "forklift")) sample_kb =
    (sample_kb, not_found, [CallScorer]) /\
  (confidence not_found == 0)%Q /\ sources not_found = [] /\
  (confidence no_manual == 0)%Q /\ sources no_manual = [].
Proof.
  apply (no_match_answer None (Some (lit "forklift")) sample_kb).
  - vm_compute. discriminate.
  - intros k d c [E|[]] Hc. injection E as <- <-.
    vm_compute in Hc. destruct Hc as [<-|[<-|[<-|[]]]]; vm_compute; reflexivity.
Defined.

(** C7 as stated fails on an empty knowledge base: no token of "ppe"
    occurs in any chunk, and the answer is not the not-found message. *)
Lemma no_match_answer_counterexample :
  strip (query_get (Some (lit "ppe"))) <> [] /\
  (forall k d c, In (k, d) (@nil (str * doc_data)) -> In c (chunks d) ->
                 count_matches (question_words (lit "ppe")) (lower (text c)) = 0) /\
  snd (fst (chat_with_agent None (Some (lit "ppe")) [])) = no_manual /\
  response no_manual <> response not_found.
Proof.
  repeat split.
  - vm_compute. discriminate.
  - intros k d c [].
  - vm_compute. discriminate.
Qed.

(** Every returned chunk carries the score of the query. *)
Lemma ranked_chunk_scored (question : str) (max_chunks : Z) (kb : KnowledgeBase) (c : chunk) :
  In c (snd (find_relevant_chunks question max_chunks kb)) ->
  exists s, relevance_score c = Some s.
Proof.
  intros H. apply ranked_chunk_inv in H as [k [d [c0 [_ [_ [Hs ->]]]]]].
  rewrite rescored_score, Hs. eexists; reflexivity.
Qed.

(** C6.  When the scorer returns at least one chunk and the configured
    generator fails on the prompt built from the top three chunks, the
    request is answered by the extractive strategy: the answer is the one
    [generate_simple_response] gives, its text is not empty, and its
    confidence is the top chunk's score clamped to [0.5, 0.8]. *)
Theorem generator_failure_falls_back (client : TextGenerator) (query : option str)
    (kb kb' : KnowledgeBase) (top : chunk) (rest : list chunk) :
  let question := strip (query_get query) in
  find_relevant_chunks question default_max_chunks kb = (kb', top :: rest) ->
  client system_prompt
         (user_prompt question (join [nl; nl] (map text (firstn 3 (top :: rest))))) = None ->
  exists a s,
    chat_with_agent (Some client) query kb =
      (kb', a, [CallScorer; CallGenerator; CallExtractive]) /\
    generate_simple_response (top :: rest) = Ok a /\
    response a <> [] /\
    relevance_score top = Some s /\
    (confidence a == clamp s (5 # 10) (8 # 10))%Q /\
    (5 # 10 <= confidence a <= 8 # 10)%Q.
Proof.
  intros question Hfind Hfail.
  destruct (generate_simple_response_ok top rest) as [a [Ha [Hresp [Hconf _]]]].
  assert (Hin : In top (snd (find_relevant_chunks question default_max_chunks kb)))
    by (rewrite Hfind; left; reflexivity).
  destruct (ranked_chunk_scored _ _ _ _ Hin) as [s Hs].
  assert (Hq : question <> []).
  { intros E. rewrite E, find_relevant_chunks_empty_question in Hfind. discriminate. }
  assert (Hkb : kb <> []).
  { intros E. rewrite E, find_relevant_chunks_nil in Hfind. discriminate. }
  assert (Hc : (confidence a == clamp s (5 # 10) (8 # 10))%Q).
  { rewrite Hconf. unfold score_or_default. rewrite Hs. apply py_clamp.
    unfold Qle; simpl; lia. }
  exists a, s. repeat split; try assumption.
  - unfold chat_with_agent. fold question.
    destruct question as [|c0 q0] eqn:Eq; [congruence|].
    destruct kb as [|kd kb0] eqn:Ekb; [congruence|].
    simpl truthy. simpl negb. cbv iota.
    rewrite Hfind. simpl truthy. simpl negb. cbv iota.
    unfold generate_ai_response. rewrite Hfail, Ha. reflexivity.
  - rewrite Hc. apply clamp_bounds. unfold Qle; simpl; lia.
  - rewrite Hc. apply clamp_bounds. unfold Qle; simpl; lia.
Qed.

Lemma generator_failure_falls_back_witness :
  exists a s,
    chat_with_agent (Some failing_generator) (Some (lit "hard hats")) sample_kb =
      (sample_kb_scored, a, [CallScorer; CallGenerator; CallExtractive]) /\
    generate_simple_response (hd sample_chunk sample_ranked :: tl sample_ranked) = Ok a /\
    response a <> [] /\
    relevance_score (hd sample_chunk sample_ranked) = Some s /\
    (confidence a == clamp s (5 # 10) (8 # 10))%Q /\
    (5 # 10 <= confidence a <= 8 # 10)%Q.
Proof.
  apply (@generator_failure_falls_back failing_generator (Some (lit "hard hats"))
           sample_kb sample_kb_scored (hd sample_chunk sample_ranked) (tl sample_ranked)).
  - vm_compute. reflexivity.
  - reflexivity.
Defined.

(** ** The chunker *)

Lemma ceil_div_least (a b k : nat) : 0 < b -> (a <= k * b <-> ceil_div a b <= k).
Proof.
  intros Hb. unfold ceil_div.
  pose proof (Nat.div_mod_eq (a + b - 1) b) as E.
  pose proof (Nat.mod_upper_bound (a + b - 1) b ltac:(lia)) as Hr.
  set (q := (a + b - 1) / b) in *. set (r := (a + b - 1) mod b) in *.
  split; intros H; nia.
Qed.

Lemma ceil_div_0 (b : nat) : 0 < b -> ceil_div 0 b = 0.
Proof.
  intros Hb. pose proof (proj1 (@ceil_div_least 0 b 0 Hb)). lia.
Qed.

Lemma ceil_div_step (a b : nat) :
  0 < b -> 0 < a -> ceil_div a b = S (ceil_div (a - b) b).
Proof.
  intros Hb Ha.
  pose proof (@ceil_div_least a b (S (ceil_div (a - b) b)) Hb) as H1.
  pose proof (@ceil_div_least (a - b) b (ceil_div (a - b) b) Hb) as H2.
  pose proof (@ceil_div_least (a - b) b (ceil_div a b - 1) Hb) as H3.
  pose proof (@ceil_div_least a b (ceil_div a b) Hb) as H4.
  pose proof (@ceil_div_least a b 0 Hb) as H5.
  assert (ceil_div a b <= S (ceil_div (a - b) b)) by (apply H1; nia).
  assert (0 < ceil_div a b) by (destruct (ceil_div a b); [lia | lia]).
  assert (ceil_div (a - b) b <= ceil_div a b - 1) by (apply H3; nia).
  lia.
Qed.

(** [stop - start] iterations are enough, and the range then has
    [ceil((stop - start) / step)] elements. *)
Lemma range_from_fuel (fuel start stop step : nat) :
  0 < step -> stop - start <= fuel ->
  length (range_from fuel start stop step) = ceil_div (stop - start) step.
Proof.
  intros Hs. revert start. induction fuel as [|fuel IH]; intros start Hf; simpl.
  - replace (stop - start) with 0 by lia. rewrite ceil_div_0; [reflexivity | exact Hs].
  - destruct (Nat.ltb_spec start stop) as [L|L].
    + simpl. rewrite IH by lia.
      rewrite (ceil_div_step (a := stop - start) Hs) by lia.
      do 2 f_equal. lia.
    + replace (stop - start) with 0 by lia. rewrite ceil_div_0; [reflexivity | exact Hs].
Qed.

Lemma range_length (stop step : nat) :
  0 < step -> length (range stop step) = ceil_div stop step.
Proof.
  intros Hs. unfold range. rewrite range_from_fuel by lia. f_equal. lia.
Qed.

(** The loop emits one chunk per window that is not blank. *)
Lemma chunk_loop_length (p : SimpleDocumentProcessor) (meta : doc_metadata)
    (words : list str) (starts : list nat) (acc : list chunk) :
  length (chunk_loop p meta words starts acc) + 
    length (filter blank (map (window_text p words) starts)) =
  length acc + length starts.
Proof.
  revert acc; induction starts as [|i starts IH]; intros acc;
    cbn [chunk_loop map filter length]; [lia|].
  unfold blank at 1, window_text at 1.
  destruct (truthy (strip (join (lit " ") (window p words i)))) eqn:Et;
    cbn [negb length].
  - match goal with
    | |- context [chunk_loop p meta words starts ?a] => specialize (IH a)
    end.
    rewrite length_app in IH. cbn [length] in IH. lia.
  - specialize (IH acc). lia.
Qed.

Lemma range_from_below (fuel start stop step : nat) (i : nat) :
  In i (range_from fuel start stop step) -> i < stop.
Proof.
  revert start; induction fuel as [|fuel IH]; intros start; simpl; [intros []|].
  destruct (Nat.ltb_spec start stop) as [L|L]; [|intros []].
  intros [<- | H]; [exact L | exact (IH _ H)].
Qed.

(** The words of [split] are non-empty and free of whitespace. *)
Lemma split_words (s : str) :
  Forall (fun w => exists c t, w = c :: t /\ isspace c = false) (split s).
Proof.
  induction s as [|c s IH]; cbn [split]; [constructor|].
  destruct (isspace c) eqn:Ec; [exact IH|].
  destruct s as [|d s']; [constructor; [eauto | constructor]|].
  destruct (isspace d) eqn:Ed; [constructor; [eauto | exact IH]|].
  destruct (split (d :: s')) as [|w ws]; [constructor; [eauto | constructor]|].
  inversion IH; subst. constructor; [eauto | assumption].
Qed.

Lemma dropwhile_nil (p : ascii -> bool) (s : str) :
  dropwhile p s = [] -> forallb p s = true.
Proof.
  induction s as [|c s IH]; simpl; [reflexivity|].
  destruct (p c); [exact IH | discriminate].
Qed.

Lemma strip_nonblank (c : ascii) (t : str) :
  isspace c = false -> strip (c :: t) <> [].
Proof.
  intros Hc E. unfold strip, strip_set in E. simpl in E. rewrite Hc in E.
  apply (f_equal (@rev ascii)) in E. rewrite rev_involutive in E. simpl in E.
  apply dropwhile_nil in E. rewrite forallb_app in E.
  apply andb_true_iff in E as [_ E]. simpl in E. rewrite Hc in E. discriminate.
Qed.

(** No window the chunker visits is blank: a window starts below the word
    count and so holds a word. *)
Lemma windows_never_blank (p : SimpleDocumentProcessor) (text : str) :
  0 < chunk_size p -> filter blank (windows p (split text)) = [].
Proof.
  intros Hsz. unfold windows.
  assert (H : forall starts, (forall i, In i starts -> i < length (split text)) ->
            filter blank (map (window_text p (split text)) starts) = []).
  { induction starts as [|i starts IH]; intros Hlt; cbn [map filter]; [reflexivity|].
    rewrite IH by (intros j Hj; apply Hlt; right; exact Hj).
    assert (Hi : i < length (split text)) by (apply Hlt; left; reflexivity).
    assert (Hb : blank (window_text p (split text) i) = false); [|rewrite Hb; reflexivity].
    unfold blank, window_text, window.
    destruct (skipn i (split text)) as [|w ws] eqn:Es.
    - apply (f_equal (@length str)) in Es. rewrite length_skipn in Es. simpl in Es. lia.
    - assert (Hw : In w (split text)).
      { rewrite <- (firstn_skipn i (split text)), Es. apply in_or_app. right. left.
        reflexivity. }
      pose proof (split_words text) as Hall. rewrite Forall_forall in Hall.
      destruct (Hall w Hw) as [c [t [-> Hc]]].
      destruct (chunk_size p) as [|n]; [lia|]. cbn [firstn].
      match goal with
      | |- context [strip ?x] => assert (Hj : exists t', x = c :: t')
      end.
      { cbn [join]. destruct (firstn n ws); simpl; eexists; reflexivity. }
      destruct Hj as [t' ->].
      pose proof (@strip_nonblank c t' Hc) as Hne.
      destruct (strip (c :: t')); [congruence | reflexivity]. }
  apply H. intros i Hi. unfold range in Hi. eapply range_from_below; exact Hi.
Qed.

(** The chunker returns, and counts one chunk per non-blank window. *)
Lemma chunk_text_length (p : SimpleDocumentProcessor) (text : str) (meta : doc_metadata) :
  0 < chunk_overlap p < chunk_size p ->
  exists cs,
    chunk_text p text meta = Ok cs /\
    length (windows p (split text)) =
      ceil_div (length (split text)) (chunk_size p - chunk_overlap p) /\
    length cs =
      ceil_div (length (split text)) (chunk_size p - chunk_overlap p)
      - length (filter blank (windows p (split text))) /\
    (forallb isspace text = true -> cs = []).
Proof.
  intros H. unfold chunk_text.
  destruct (Z.eqb_spec (Z.of_nat (chunk_size p) - Z.of_nat (chunk_overlap p)) 0) as [E|_];
    [lia|].
  destruct (Z.ltb_spec (Z.of_nat (chunk_size p) - Z.of_nat (chunk_overlap p)) 0) as [L|_];
    [lia|].
  replace (Z.to_nat (Z.of_nat (chunk_size p) - Z.of_nat (chunk_overlap p)))
    with (chunk_size p - chunk_overlap p) by lia.
  eexists. split; [reflexivity|].
  assert (Hw : length (windows p (split text)) =
               ceil_div (length (split text)) (chunk_size p - chunk_overlap p)).
  { unfold windows. rewrite length_map. apply range_length. lia. }
  split; [exact Hw|]. split.
  - pose proof (chunk_loop_length p meta (split text)
                  (range (length (split text)) (chunk_size p - chunk_overlap p)) []) as Hl.
    fold (windows p (split text)) in Hl. simpl in Hl.
    rewrite range_length in Hl by lia. lia.
  - intros Hb. rewrite (split_blank _ Hb). reflexivity.
Qed.

(** C8.  With 0 < overlap < window size (the chunker is built with 1000
    and 200) [chunk_text] returns, the number of windows is
    ceil(wordCount / (windowSize - overlap)), and the number of chunks is
    that number minus the number of windows that are blank after
    trimming; a text without a non-whitespace character gives no chunk. *)
Theorem chunk_count (p : SimpleDocumentProcessor) (text : str) (meta : doc_metadata) :
  0 < chunk_overlap p < chunk_size p ->
  exists cs,
    chunk_text p text meta = Ok cs /\
    length (windows p (split text)) =
      ceil_div (length (split text)) (chunk_size p - chunk_overlap p) /\
    length cs =
      ceil_div (length (split text)) (chunk_size p - chunk_overlap p)
      - length (filter blank (windows p (split text))) /\
    (forallb isspace text = true -> cs = []).
Proof. exact (@chunk_text_length p text meta). Qed.

Lemma chunk_count_witness :
  exists cs,
    chunk_text processor sample_text sample_metadata = Ok cs /\
    length (windows processor (split sample_text)) =
      ceil_div (length (split sample_text)) (chunk_size processor - chunk_overlap processor) /\
    length cs =
      ceil_div (length (split sample_text)) (chunk_size processor - chunk_overlap processor)
      - length (filter blank (windows processor (split sample_text))) /\
    (forallb isspace sample_text = true -> cs = []).
Proof.
  apply (chunk_count processor sample_text sample_metadata).
  unfold processor; simpl; lia.
Defined.

(** In fact no window is blank, so the count is the ceiling itself. *)
Corollary chunk_count_exact (p : SimpleDocumentProcessor) (text : str) (meta : doc_metadata) :
  0 < chunk_overlap p < chunk_size p ->
  exists cs,
    chunk_text p text meta = Ok cs /\
    length cs = ceil_div (length (split text)) (chunk_size p - chunk_overlap p).
Proof.
  intros H. destruct (@chunk_text_length p text meta H) as [cs [E [_ [Hl _]]]].
  exists cs. split; [exact E|].
  rewrite windows_never_blank in Hl by lia. simpl in Hl. lia.
Qed.

(** ** The statistics *)

Lemma str_of_nat_inj (n m : nat) : str_of_nat n = str_of_nat m -> n = m.
Proof.
  unfold str_of_nat, lit. intros H.
  apply (f_equal string_of_list_ascii) in H.
  rewrite !string_of_list_ascii_of_string in H.
  apply (f_equal NilEmpty.uint_of_string) in H.
  rewrite !NilEmpty.usu in H. injection H as H.
  apply (f_equal Nat.of_uint) in H.
  rewrite !DecimalNat.Unsigned.of_to in H. exact H.
Qed.

Lemma doc_id_not_manual (x : str) : lit "doc_" ++ x <> lit "safety_manual".
Proof. unfold lit; simpl. discriminate. Qed.

Lemma doc_id_inj (n m : nat) :
  lit "doc_" ++ str_of_nat n = lit "doc_" ++ str_of_nat m -> n = m.
Proof. intros H. apply app_inv_head in H. apply str_of_nat_inj; exact H. Qed.

Lemma dict_set_fresh (k : str) (v : doc_data) (kb : KnowledgeBase) :
  ~ In k (keys kb) -> dict_set k v kb = kb ++ [(k, v)].
Proof.
  induction kb as [|[k' v'] kb IH]; intros H; simpl; [reflexivity|].
  destruct (str_eqb k k') eqn:E.
  - apply str_eqb_eq in E. subst. exfalso. apply H. left; reflexivity.
  - rewrite IH; [reflexivity|]. intros Hin. apply H. right; exact Hin.
Qed.

(** Assigning twice to a key leaves one entry under it. *)
Lemma dict_set_twice_keys (k : str) (v v' : doc_data) (kb : KnowledgeBase) :
  keys (dict_set k v (dict_set k v' kb)) = keys (dict_set k v' kb).
Proof.
  induction kb as [|[k0 v0] kb IH]; cbn [dict_set].
  - rewrite str_eqb_refl. reflexivity.
  - destruct (str_eqb k k0) eqn:E; cbn [dict_set]; rewrite E.
    + reflexivity.
    + unfold keys in *. cbn [map fst]. f_equal. exact IH.
Qed.

Lemma recompute_app (kb : KnowledgeBase) (k : str) (v : doc_data) :
  recompute (kb ++ [(k, v)]) =
    {| total_documents := total_documents (recompute kb) + 1;
       total_chunks := total_chunks (recompute kb) + length (chunks v);
       categories := add_category (category (doc_metadata_of v))
                                  (categories (recompute kb)) |}.
Proof.
  unfold recompute. rewrite length_app, !fold_left_app. reflexivity.
Qed.

Lemma fold_left_map_frame {A B} (f : A -> B -> A) (g : B -> B) (l : list B) (a : A) :
  (forall a x, f a (g x) = f a x) -> fold_left f (map g l) a = fold_left f l a.
Proof.
  intros H. revert a; induction l as [|x l IH]; intros a; simpl; [reflexivity|].
  rewrite H. apply IH.
Qed.

(** A pass of the scorer changes nothing the statistics are folded from. *)
Lemma recompute_rescored (question : str) (kb : KnowledgeBase) :
  recompute (map (fun kd => (fst kd, rescored_doc question (snd kd))) kb) = recompute kb.
Proof.
  unfold recompute. rewrite length_map. f_equal.
  - apply fold_left_map_frame. intros a [k d]. simpl. rewrite length_map. reflexivity.
  - apply fold_left_map_frame. intros a [k d]. reflexivity.
Qed.

Lemma keys_rescored (question : str) (kb : KnowledgeBase) :
  keys (map (fun kd => (fst kd, rescored_doc question (snd kd))) kb) = keys kb.
Proof. unfold keys. rewrite map_map. reflexivity. Qed.

(** The knowledge base after a chat request: untouched, or as one pass of
    the scorer leaves it. *)
Lemma chat_with_agent_kb (client : option TextGenerator) (query : option str)
    (kb : KnowledgeBase) :
  fst (fst (chat_with_agent client query kb)) = kb \/
  exists question,
    fst (fst (chat_with_agent client query kb)) =
      map (fun kd => (fst kd, rescored_doc question (snd kd))) kb.
Proof.
  unfold chat_with_agent.
  destruct (negb (truthy (strip (query_get query)))); [left; reflexivity|].
  destruct (negb (truthy kb)); [left; reflexivity|].
  pose proof (find_relevant_chunks_fst (strip (query_get query)) default_max_chunks kb) as E.
  destruct (find_relevant_chunks (strip (query_get query)) default_max_chunks kb)
    as [kb' ranked]. simpl in E. right. exists (strip (query_get query)).
  destruct (negb (truthy ranked)); [exact E|].
  destruct client as [client|]; [|exact E].
  destruct (generate_ai_response client (strip (query_get query)) ranked). exact E.
Qed.

Lemma keys_issued_fresh (s : server_state) :
  keys_issued (knowledge_base s) -> ~ In (next_doc_id s) (keys (knowledge_base s)).
Proof.
  intros Hk Hin. destruct (Hk _ Hin) as [E | [i [Hi E]]].
  - exact (@doc_id_not_manual _ E).
  - apply doc_id_inj in E. lia.
Qed.

Lemma keys_issued_app (kb : KnowledgeBase) (v : doc_data) :
  keys_issued kb -> keys_issued (kb ++ [(lit "doc_" ++ str_of_nat (length kb), v)]).
Proof.
  intros Hk k Hin. unfold keys in Hin. rewrite map_app in Hin.
  apply in_app_or in Hin as [Hin | [<- | []]].
  - destruct (Hk k Hin) as [E | [i [Hi E]]]; [left; exact E|].
    right. exists i. rewrite length_app. simpl. split; [lia | exact E].
  - right. exists (length kb). rewrite length_app. simpl. split; [lia | reflexivity].
Qed.

(** The invariant of the server: the counters are what a fold over the map
    gives, and every key has been issued by the program. *)
Lemma reachable_invariant (s : server_state) :
  reachable s ->
  stats s = recompute (knowledge_base s) /\ keys_issued (knowledge_base s).
Proof.
  induction 1 as [d | s r Hr [IHs IHk]].
  - destruct d as [d|]; simpl.
    + split; [reflexivity|]. intros k [<- | []]. left; reflexivity.
    + split; [reflexivity|]. intros k [].
  - destruct r as [u | client query | ]; simpl.
    + unfold upload_document.
      destruct (negb (existsb (str_eqb (lower (up_ext u))) allowed_extensions));
        [simpl; auto|].
      destruct (chunk_text processor (up_text u) _) as [cs|e]; [|simpl; auto].
      simpl. rewrite dict_set_fresh by (apply (keys_issued_fresh s IHk)).
      split.
      * rewrite recompute_app, <- IHs. reflexivity.
      * apply keys_issued_app; exact IHk.
    + destruct (chat_with_agent_kb client query (knowledge_base s)) as [E | [q E]];
        rewrite E.
      * auto.
      * rewrite recompute_rescored. split; [exact IHs|].
        intros k Hin. rewrite keys_rescored in Hin. rewrite length_map. apply IHk; exact Hin.
    + auto.
Qed.

(** C3.  In every state the program reaches, the statistics returned equal
    a recomputation by a fold over the knowledge base.  The counters are
    kept separately, and they stay exact because an ingest never doubles a
    document: the identifier an upload computes is never present, and
    loading the manual under its fixed identifier, over a state that
    already holds it, sets the same totals as loading it into the empty
    knowledge base. *)
Theorem stats_never_diverge :
  (forall s, reachable s -> get_stats s = recompute (knowledge_base s)) /\
  (forall s, reachable s -> ~ In (next_doc_id s) (keys (knowledge_base s))) /\
  (forall d d' s,
      stats (load_safety_manual (Some d) (load_safety_manual (Some d') s)) =
        stats (load_safety_manual (Some d) initial_state) /\
      keys (knowledge_base (load_safety_manual (Some d) (load_safety_manual (Some d') s))) =
        keys (knowledge_base (load_safety_manual (Some d') s))).
Proof.
  split; [|split].
  - intros s H. apply reachable_invariant; exact H.
  - intros s H. apply keys_issued_fresh. apply reachable_invariant; exact H.
  - intros d d' s. split; [reflexivity|].
    cbn [load_safety_manual knowledge_base]. apply dict_set_twice_keys.
Qed.

Lemma stats_never_diverge_witness :
  let s := handle (ReqUpload sample_upload) (load_safety_manual None initial_state) in
  get_stats s = recompute (knowledge_base s) /\
  ~ In (next_doc_id s) (keys (knowledge_base s)).
Proof.
  intros s.
  assert (R : reachable s) by (apply reach_handle, reach_start).
  split.
  - apply (proj1 stats_never_diverge s R).
  - apply (proj1 (proj2 stats_never_diverge) s R).
Defined.

(** The store-and-count statements of [upload_document] do count a
    document again when they are run under a present identifier; by
    [keys_issued_fresh] no reachable state lets an upload do so. *)
Example store_document_present_key :
  let s := fst (upload_document sample_upload initial_state) in
  let s' := store_document (lit "doc_0") sample_metadata [] sample_text s in
  length (knowledge_base s') = 1 /\ total_documents (stats s') = 2 /\
  next_doc_id s <> lit "doc_0".
Proof. vm_compute. repeat split; congruence. Qed.

(** The scorer on the empty and on the blank query. *)
Example rank_empty_query :
  find_relevant_chunks (lit "") default_max_chunks sample_kb = (sample_kb, []) /\
  find_relevant_chunks (lit "   ") default_max_chunks sample_kb = (sample_kb, []).
Proof. split; vm_compute; reflexivity. Qed.

(** * Further properties of the code *)

(** ** The chunker, in closed form *)

Lemma range_from_closed (fuel start stop step : nat) :
  0 < step -> stop - start <= fuel ->
  range_from fuel start stop step =
    map (fun k => start + k * step) (seq 0 (ceil_div (stop - start) step)).
Proof.
  intros Hs. revert start. induction fuel as [|fuel IH]; intros start Hf; simpl.
  - replace (stop - start) with 0 by lia. rewrite ceil_div_0 by exact Hs. reflexivity.
  - destruct (Nat.ltb_spec start stop) as [L|L].
    + rewrite (ceil_div_step (a := stop - start) Hs) by lia.
      cbn [seq map]. f_equal; [lia|].
      rewrite IH by lia. rewrite <- seq_shift, map_map.
      replace (stop - (start + step)) with (stop - start - step) by lia.
      apply map_ext. intros k. simpl. lia.
    + replace (stop - start) with 0 by lia. rewrite ceil_div_0 by exact Hs. reflexivity.
Qed.

Lemma range_closed (stop step : nat) :
  0 < step -> range stop step = map (fun k => k * step) (seq 0 (ceil_div stop step)).
Proof.
  intros Hs. unfold range. rewrite range_from_closed by lia.
  rewrite Nat.sub_0_r. reflexivity.
Qed.

(** When no visited window is blank the loop appends one chunk per window,
    numbered from the number of chunks already there. *)
Lemma chunk_loop_closed (p : SimpleDocumentProcessor) (meta : doc_metadata)
    (words : list str) (starts : list nat) (acc : list chunk) :
  (forall i, In i starts -> blank (window_text p words i) = false) ->
  chunk_loop p meta words starts acc =
    acc ++ map (fun ki => make_chunk p meta words (fst ki) (snd ki))
               (combine (seq (length acc) (length starts)) starts).
Proof.
  revert acc. induction starts as [|i starts IH]; intros acc Hnb; cbn [chunk_loop].
  - simpl. rewrite app_nil_r. reflexivity.
  - pose proof (Hnb i (or_introl eq_refl)) as Hi.
    unfold blank, window_text in Hi. apply negb_false_iff in Hi. rewrite Hi.
    rewrite IH by (intros j Hj; apply Hnb; right; exact Hj).
    rewrite length_app. cbn [length seq combine map fst snd].
    rewrite <- app_assoc. replace (length acc + 1) with (S (length acc)) by lia.
    reflexivity.
Qed.

Lemma window_nonblank (p : SimpleDocumentProcessor) (text : str) (i : nat) :
  0 < chunk_size p -> i < length (split text) ->
  blank (window_text p (split text) i) = false.
Proof.
  intros Hsz Hi. unfold blank, window_text, window.
  destruct (skipn i (split text)) as [|w ws] eqn:Es.
  - apply (f_equal (@length str)) in Es. rewrite length_skipn in Es. simpl in Es. lia.
  - assert (Hw : In w (split text)).
    { rewrite <- (firstn_skipn i (split text)), Es. apply in_or_app. right. left.
      reflexivity. }
    pose proof (split_words text) as Hall. rewrite Forall_forall in Hall.
    destruct (Hall w Hw) as [c [t [-> Hc]]].
    destruct (chunk_size p) as [|n]; [lia|]. cbn [firstn].
    match goal with
    | |- context [strip ?x] => assert (Hj : exists t', x = c :: t')
    end.
    { cbn [join]. destruct (firstn n ws); simpl; eexists; reflexivity. }
    destruct Hj as [t' ->].
    pose proof (@strip_nonblank c t' Hc) as Hne.
    destruct (strip (c :: t')); [congruence | reflexivity].
Qed.

Lemma combine_seq_map {A} (f : nat -> nat -> A) (g : nat -> nat) (a m : nat) :
  map (fun ki => f (fst ki) (snd ki)) (combine (seq a m) (map g (seq a m))) =
  map (fun k => f k (g k)) (seq a m).
Proof.
  revert a; induction m as [|m IH]; intros a; simpl; [reflexivity|].
  f_equal. apply IH.
Qed.

(** The chunker in closed form. *)
Lemma chunk_text_eq (p : SimpleDocumentProcessor) (text : str)
    (meta : doc_metadata) :
  0 < chunk_overlap p < chunk_size p ->
  let stride := chunk_size p - chunk_overlap p in
  chunk_text p text meta =
    Ok (map (fun k => make_chunk p meta (split text) k (k * stride))
            (seq 0 (ceil_div (length (split text)) stride))).
Proof.
  intros H stride. unfold chunk_text.
  destruct (Z.eqb_spec (Z.of_nat (chunk_size p) - Z.of_nat (chunk_overlap p)) 0) as [E|_];
    [lia|].
  destruct (Z.ltb_spec (Z.of_nat (chunk_size p) - Z.of_nat (chunk_overlap p)) 0) as [L|_];
    [lia|].
  replace (Z.to_nat (Z.of_nat (chunk_size p) - Z.of_nat (chunk_overlap p)))
    with stride by (unfold stride; lia).
  f_equal. rewrite chunk_loop_closed.
  - cbn [length app]. rewrite range_closed by (unfold stride; lia).
    rewrite length_map, length_seq.
    apply combine_seq_map.
  - intros i Hi. apply window_nonblank; [lia|].
    unfold range in Hi. eapply range_from_below; exact Hi.
Qed.

(** X1.  With 0 < overlap < window size, [chunk_text] returns exactly one
    chunk for each start position k * (size - overlap) below the word
    count, in order; the k-th chunk has index k, identifier
    <doc_id>_chunk_<k>, the words [k*stride, k*stride + size) joined by
    single blanks as text, and their number as word count. *)
Theorem chunk_text_closed_form (p : SimpleDocumentProcessor) (text : str)
    (meta : doc_metadata) :
  0 < chunk_overlap p < chunk_size p ->
  let stride := chunk_size p - chunk_overlap p in
  chunk_text p text meta =
    Ok (map (fun k => make_chunk p meta (split text) k (k * stride))
            (seq 0 (ceil_div (length (split text)) stride))).
Proof. exact (@chunk_text_eq p text meta). Qed.

Lemma chunk_text_closed_form_witness :
  chunk_text sample_processor sample_text sample_metadata =
    Ok (map (fun k => make_chunk sample_processor sample_metadata (split sample_text) k (k * 3))
            (seq 0 (ceil_div (length (split sample_text)) 3))).
Proof.
  apply (chunk_text_closed_form sample_processor sample_text sample_metadata).
  unfold sample_processor; simpl; lia.
Defined.

Lemma split_is_word (s : str) : Forall is_word (split s).
Proof.
  induction s as [|c s IH]; cbn [split]; [constructor|].
  destruct (isspace c) eqn:Ec; [exact IH|].
  assert (Hc : is_word [c]).
  { split; [discriminate|]. simpl. rewrite Ec. reflexivity. }
  destruct s as [|d s']; [constructor; [exact Hc | constructor]|].
  destruct (isspace d) eqn:Ed; [constructor; [exact Hc | exact IH]|].
  destruct (split (d :: s')) as [|w ws]; [constructor; [exact Hc | constructor]|].
  inversion IH as [|? ? [Hw1 Hw2] Hws]; subst. constructor; [|exact Hws].
  split; [discriminate|]. simpl. rewrite Ec, Hw2. reflexivity.
Qed.

Lemma split_step (c d : ascii) (s : str) :
  isspace c = false -> isspace d = false ->
  split (c :: d :: s) =
    match split (d :: s) with w :: ws => (c :: w) :: ws | [] => [[c]] end.
Proof.
  intros Hc Hd. cbn [split]. rewrite Hc, Hd. reflexivity.
Qed.

Lemma is_word_cons (c d : ascii) (w : str) :
  is_word (c :: d :: w) -> isspace c = false /\ isspace d = false /\ is_word (d :: w).
Proof.
  intros [_ Hw]. cbn [forallb] in Hw.
  apply andb_true_iff in Hw as [Hc Hw]. pose proof Hw as Hw'.
  apply andb_true_iff in Hw' as [Hd _].
  apply negb_true_iff in Hc. apply negb_true_iff in Hd.
  repeat split; try assumption. discriminate.
Qed.

Lemma is_word_single (c : ascii) : is_word [c] -> isspace c = false.
Proof.
  intros [_ Hw]. simpl in Hw. rewrite andb_true_r in Hw.
  apply negb_true_iff in Hw. exact Hw.
Qed.

Lemma split_word_sep (c : ascii) (w : str) (sp : ascii) (s : str) :
  is_word (c :: w) -> isspace sp = true ->
  split ((c :: w) ++ sp :: s) = (c :: w) :: split s.
Proof.
  revert c. induction w as [|d w IH]; intros c Hw Hsp.
  - apply is_word_single in Hw. cbn [app split]. rewrite Hw, Hsp. reflexivity.
  - apply is_word_cons in Hw as [Hc [Hd Hw]].
    change ((c :: d :: w) ++ sp :: s) with (c :: d :: (w ++ sp :: s)).
    rewrite split_step by assumption.
    change (d :: w ++ sp :: s) with ((d :: w) ++ sp :: s).
    rewrite (IH d Hw Hsp). reflexivity.
Qed.

Lemma split_word (w : str) : is_word w -> split w = [w].
Proof.
  intros Hw. destruct w as [|c w]; [destruct Hw; congruence|].
  revert c Hw. induction w as [|d w IH]; intros c Hw.
  - apply is_word_single in Hw. cbn [split]. rewrite Hw. reflexivity.
  - apply is_word_cons in Hw as [Hc [Hd Hw]].
    rewrite split_step by assumption. rewrite (IH d Hw). reflexivity.
Qed.

(** Splitting what [" ".join] made of words gives the words back. *)
Lemma split_join (ws : list str) :
  Forall is_word ws -> split (join (lit " ") ws) = ws.
Proof.
  induction 1 as [|w ws Hw Hws IH]; [reflexivity|].
  destruct ws as [|w' ws'].
  - cbn [join]. apply split_word; exact Hw.
  - destruct w as [|c w]; [destruct Hw; congruence|].
    change (split ((c :: w) ++ ascii_of_nat 32 :: join (lit " ") (w' :: ws'))
            = (c :: w) :: w' :: ws').
    rewrite split_word_sep by (auto; reflexivity).
    f_equal. exact IH.
Qed.

Lemma window_words (p : SimpleDocumentProcessor) (text : str) (i : nat) :
  Forall is_word (window p (split text) i).
Proof.
  apply Forall_forall. intros w Hw.
  pose proof (split_is_word text) as H. rewrite Forall_forall in H. apply H.
  unfold window in Hw. apply firstn_In in Hw.
  rewrite <- (firstn_skipn i (split text)). apply in_or_app. right; exact Hw.
Qed.

(** X2.  Round trip on the chunker's output: splitting a chunk's text on
    whitespace gives back exactly the words of its window, so the stored
    word count is the number of words of the text, between 1 and the window
    size. *)
Theorem chunk_words_round_trip (p : SimpleDocumentProcessor) (txt : str)
    (meta : doc_metadata) (cs : list chunk) (c : chunk) :
  0 < chunk_overlap p < chunk_size p ->
  chunk_text p txt meta = Ok cs -> In c cs ->
  split (text c) =
    window p (split txt) (chunk_index (metadata c) * (chunk_size p - chunk_overlap p)) /\
  word_count (metadata c) = length (split (text c)) /\
  1 <= word_count (metadata c) <= chunk_size p.
Proof.
  intros H E Hc. rewrite (@chunk_text_eq p txt meta H) in E. injection E as <-.
  apply in_map_iff in Hc as [k [<- Hk]]. apply in_seq in Hk.
  cbn [make_chunk text metadata chunk_index word_count].
  rewrite split_join by apply window_words.
  split; [reflexivity|]. split; [reflexivity|].
  set (stride := chunk_size p - chunk_overlap p) in *.
  assert (Hlt : k * stride < length (split txt)).
  { destruct (Nat.lt_ge_cases (k * stride) (length (split txt))) as [L|L]; [exact L|].
    apply (@ceil_div_least _ stride k ltac:(unfold stride; lia)) in L. lia. }
  unfold window. rewrite length_firstn, length_skipn. lia.
Qed.

Lemma chunk_words_round_trip_witness :
  split (text sample_chunk) = window sample_processor (split sample_text) (0 * (5 - 2)) /\
  word_count (metadata sample_chunk) = length (split (text sample_chunk)) /\
  1 <= word_count (metadata sample_chunk) <= 5.
Proof.
  apply (@chunk_words_round_trip sample_processor sample_text sample_metadata
           sample_chunks sample_chunk).
  - unfold sample_processor; simpl; lia.
  - vm_compute. reflexivity.
  - vm_compute. left. reflexivity.
Defined.

Lemma nth_in_window {A} (l : list A) (d : A) (i n j : nat) :
  i <= j < i + n -> j < length l -> In (nth j l d) (firstn n (skipn i l)).
Proof.
  intros Hj Hl.
  replace (nth j l d) with (nth (j - i) (firstn n (skipn i l)) d).
  - apply nth_In. rewrite length_firstn, length_skipn. lia.
  - rewrite nth_firstn. destruct (Nat.ltb_spec (j - i) n) as [_|L]; [|lia].
    rewrite nth_skipn. f_equal. lia.
Qed.

(** X3.  Nothing is lost: with 0 < overlap < window size every word of
    the input occurs among the words of some emitted chunk. *)
Theorem chunk_text_covers (p : SimpleDocumentProcessor) (txt : str)
    (meta : doc_metadata) :
  0 < chunk_overlap p < chunk_size p ->
  exists cs,
    chunk_text p txt meta = Ok cs /\
    forall w, In w (split txt) -> exists c, In c cs /\ In w (split (text c)).
Proof.
  intros H. rewrite (@chunk_text_eq p txt meta H). eexists. split; [reflexivity|].
  intros w Hw. set (stride := chunk_size p - chunk_overlap p).
  assert (Hs : 0 < stride <= chunk_size p) by (unfold stride; lia).
  clearbody stride.
  destruct (In_nth _ _ [] Hw) as [j [Hj Ej]].
  pose proof (Nat.div_mod_eq j stride) as Hdm.
  pose proof (Nat.mod_upper_bound j stride ltac:(lia)) as Hmod.
  set (k := j / stride) in *. set (r := j mod stride) in *. clearbody k r.
  rewrite (Nat.mul_comm stride k) in Hdm.
  assert (Hk : k * stride <= j < k * stride + stride) by lia.
  assert (Hin : k < ceil_div (length (split txt)) stride).
  { destruct (Nat.lt_ge_cases k (ceil_div (length (split txt)) stride)) as [L|L];
      [exact L|].
    apply (@ceil_div_least _ stride k ltac:(lia)) in L. unfold str in *. lia. }
  exists (make_chunk p meta (split txt) k (k * stride)). split.
  - apply (in_map (fun k => make_chunk p meta (split txt) k (k * stride))).
    apply in_seq. lia.
  - cbn [make_chunk text]. rewrite split_join by apply window_words.
    rewrite <- Ej. unfold window. apply nth_in_window; [lia | exact Hj].
Qed.

Lemma chunk_text_covers_witness :
  exists cs,
    chunk_text processor sample_text sample_metadata = Ok cs /\
    forall w, In w (split sample_text) -> exists c, In c cs /\ In w (split (text c)).
Proof.
  apply (chunk_text_covers processor sample_text sample_metadata).
  unfold processor; simpl; lia.
Defined.



Lemma ceil_div_small (a b : nat) : 0 < a <= b -> ceil_div a b = 1.
Proof.
  intros H.
  pose proof (proj1 (@ceil_div_least a b 1 ltac:(lia)) ltac:(lia)).
  pose proof (proj2 (@ceil_div_least a b 0 ltac:(lia))). lia.
Qed.

(** X5.  A text of at most size - overlap words (800 for the server's
    chunker), and at least one, becomes exactly one chunk, number 0, whose
    text is all the words joined by single blanks. *)
Theorem chunk_text_short (p : SimpleDocumentProcessor) (txt : str) (meta : doc_metadata) :
  0 < chunk_overlap p < chunk_size p ->
  0 < length (split txt) <= chunk_size p - chunk_overlap p ->
  chunk_text p txt meta =
    Ok [ {| id := doc_id meta ++ lit "_chunk_0";
            text := join (lit " ") (split txt);
            metadata := {| doc_meta := meta; chunk_index := 0;
                           word_count := length (split txt); title := None |};
            relevance_score := None |} ].
Proof.
  intros H Hw. rewrite (@chunk_text_eq p txt meta H).
  rewrite ceil_div_small by exact Hw. cbn [seq map]. unfold make_chunk, window.
  cbn [Nat.mul skipn]. rewrite firstn_all2 by lia. reflexivity.
Qed.

Lemma chunk_text_short_witness :
  chunk_text processor sample_text sample_metadata =
    Ok [ {| id := doc_id sample_metadata ++ lit "_chunk_0";
            text := join (lit " ") (split sample_text);
            metadata := {| doc_meta := sample_metadata; chunk_index := 0;
                           word_count := length (split sample_text); title := None |};
            relevance_score := None |} ].
Proof.
  apply (chunk_text_short processor sample_text sample_metadata).
  - unfold processor; simpl; lia.
  - vm_compute. split; apply Nat.leb_le; reflexivity.
Defined.

(** ** Ingestion *)

Lemma dict_get_set_same (k : str) (v : doc_data) (kb : KnowledgeBase) :
  dict_get k (dict_set k v kb) = Some v.
Proof.
  induction kb as [|[k' v'] kb IH]; cbn [dict_set dict_get].
  - rewrite str_eqb_refl. reflexivity.
  - destruct (str_eqb k k') eqn:E; cbn [dict_get]; rewrite E; [reflexivity | exact IH].
Qed.

Lemma dict_get_set_other (k k' : str) (v : doc_data) (kb : KnowledgeBase) :
  k' <> k -> dict_get k' (dict_set k v kb) = dict_get k' kb.
Proof.
  intros N. induction kb as [|[k0 v0] kb IH]; cbn [dict_set dict_get].
  - apply str_eqb_neq in N. rewrite N. reflexivity.
  - destruct (str_eqb k k0) eqn:E; cbn [dict_get].
    + apply str_eqb_eq in E. subst k0. apply str_eqb_neq in N. rewrite N. reflexivity.
    + rewrite IH. reflexivity.
Qed.

Lemma dict_get_absent (k : str) (kb : KnowledgeBase) :
  ~ In k (keys kb) -> dict_get k kb = None.
Proof.
  induction kb as [|[k' v] kb IH]; intros H; cbn [dict_get]; [reflexivity|].
  destruct (str_eqb k k') eqn:E.
  - apply str_eqb_eq in E. exfalso. apply H. left. simpl. congruence.
  - apply IH. intros Hin. apply H. right. exact Hin.
Qed.

Lemma dict_set_twice (k : str) (v : doc_data) (kb : KnowledgeBase) :
  dict_set k v (dict_set k v kb) = dict_set k v kb.
Proof.
  induction kb as [|[k0 v0] kb IH]; cbn [dict_set].
  - rewrite str_eqb_refl. reflexivity.
  - destruct (str_eqb k k0) eqn:E; cbn [dict_set]; rewrite E; [reflexivity|].
    f_equal. exact IH.
Qed.

Lemma processor_chunk_text (txt : str) (meta : doc_metadata) :
  chunk_text processor txt meta =
    Ok (map (fun k => make_chunk processor meta (split txt) k (k * 800))
            (seq 0 (ceil_div (length (split txt)) 800))).
Proof.
  apply (@chunk_text_eq processor txt meta). unfold processor; simpl; lia.
Qed.


(** X7.  Insert and look up: after a successful upload in a reachable
    state, the returned identifier is a key of the knowledge base under
    which the document is found with the extracted text, the file name and
    category of the request and as many chunks as reported; every other key
    maps to what it mapped to before, and there is one document more. *)
Theorem upload_then_lookup (u : upload) (s : server_state) (r : upload_response) :
  reachable s ->
  snd (upload_document u s) = Ok r ->
  let s' := fst (upload_document u s) in
  (exists d,
      dict_get (ur_doc_id r) (knowledge_base s') = Some d /\
      full_text d = up_text u /\
      filename (doc_metadata_of d) = up_filename u /\
      category (doc_metadata_of d) = up_category u /\
      doc_id (doc_metadata_of d) = ur_doc_id r /\
      length (chunks d) = ur_chunks_created r) /\
  dict_get (ur_doc_id r) (knowledge_base s) = None /\
  (forall k, k <> ur_doc_id r ->
             dict_get k (knowledge_base s') = dict_get k (knowledge_base s)) /\
  length (knowledge_base s') = S (length (knowledge_base s)).
Proof.
  intros Hr. unfold upload_document.
  destruct (negb (existsb (str_eqb (lower (up_ext u))) allowed_extensions));
    [discriminate|].
  rewrite processor_chunk_text. cbn [snd fst]. intros E. injection E as <-.
  cbn [ur_doc_id ur_chunks_created store_document knowledge_base].
  pose proof (proj2 (reachable_invariant Hr)) as Hk.
  pose proof (keys_issued_fresh s Hk) as Hfresh. unfold next_doc_id in Hfresh.
  repeat split.
  - eexists. split; [apply dict_get_set_same|]. repeat split.
  - apply dict_get_absent; exact Hfresh.
  - intros k N. apply dict_get_set_other; exact N.
  - rewrite dict_set_fresh by exact Hfresh. rewrite length_app. simpl. lia.
Qed.

Lemma upload_then_lookup_witness :
  let s' := fst (upload_document sample_upload initial_state) in
  (exists d,
      dict_get (lit "doc_0") (knowledge_base s') = Some d /\
      full_text d = sample_text /\
      filename (doc_metadata_of d) = lit "ppe.txt" /\
      category (doc_metadata_of d) = lit "general" /\
      doc_id (doc_metadata_of d) = lit "doc_0" /\
      length (chunks d) = 1) /\
  dict_get (lit "doc_0") (knowledge_base initial_state) = None /\
  (forall k, k <> lit "doc_0" ->
             dict_get k (knowledge_base s') = dict_get k (knowledge_base initial_state)) /\
  length (knowledge_base s') = S (length (knowledge_base initial_state)).
Proof.
  apply (@upload_then_lookup sample_upload initial_state
           {| ur_message := lit "Document uploaded and processed successfully";
              ur_doc_id := lit "doc_0"; ur_chunks_created := 1;
              ur_filename := lit "ppe.txt" |}).
  - exact (reach_start None).
  - vm_compute. reflexivity.
Defined.

(** X8.  A document whose text has no word is accepted all the same: it
    is stored with no chunk and counted as a document, and the chunk total
    stays as it was. *)
Theorem upload_blank_text (u : upload) (s : server_state) :
  existsb (str_eqb (lower (up_ext u))) allowed_extensions = true ->
  forallb isspace (up_text u) = true ->
  exists r,
    snd (upload_document u s) = Ok r /\
    ur_chunks_created r = 0 /\
    total_documents (stats (fst (upload_document u s))) = total_documents (stats s) + 1 /\
    total_chunks (stats (fst (upload_document u s))) = total_chunks (stats s) /\
    (exists d, dict_get (ur_doc_id r) (knowledge_base (fst (upload_document u s))) = Some d /\
               chunks d = []).
Proof.
  intros Hext Hblank. unfold upload_document. rewrite Hext. cbn [negb].
  rewrite processor_chunk_text, (split_blank _ Hblank). cbn [length].
  rewrite ceil_div_0 by lia. cbn [seq map snd fst].
  eexists. split; [reflexivity|]. cbn [ur_chunks_created ur_doc_id store_document stats
    knowledge_base total_documents total_chunks length].
  repeat split; try lia.
  eexists. split; [apply dict_get_set_same | reflexivity].
Qed.

Lemma upload_blank_text_witness :
  exists r,
    snd (upload_document (mk_upload (lit "empty.txt") (lit ".txt") 3 (lit "general") (lit "   "))
                         initial_state) = Ok r /\
    ur_chunks_created r = 0 /\
    total_documents
      (stats (fst (upload_document
                     (mk_upload (lit "empty.txt") (lit ".txt") 3 (lit "general") (lit "   "))
                     initial_state))) = total_documents (stats initial_state) + 1 /\
    total_chunks
      (stats (fst (upload_document
                     (mk_upload (lit "empty.txt") (lit ".txt") 3 (lit "general") (lit "   "))
                     initial_state))) = total_chunks (stats initial_state) /\
    (exists d,
        dict_get (ur_doc_id r)
          (knowledge_base
             (fst (upload_document
                     (mk_upload (lit "empty.txt") (lit ".txt") 3 (lit "general") (lit "   "))
                     initial_state))) = Some d /\
        chunks d = []).
Proof.
  apply (upload_blank_text
           (mk_upload (lit "empty.txt") (lit ".txt") 3 (lit "general") (lit "   "))
           initial_state); reflexivity.
Defined.

Lemma manual_chunks_map (meta : doc_metadata) (l : list manual_chunk) (i : nat) :
  map id (manual_chunks meta i l) = map mc_id l /\
  map text (manual_chunks meta i l) = map mc_content l /\
  map (fun c => chunk_index (metadata c)) (manual_chunks meta i l) = seq i (length l) /\
  map (fun c => title (metadata c)) (manual_chunks meta i l) = map (fun c => Some (mc_title c)) l /\
  length (manual_chunks meta i l) = length l.
Proof.
  revert i. induction l as [|c l IH]; intros i; cbn [manual_chunks map length seq].
  - repeat split.
  - destruct (IH (S i)) as [E1 [E2 [E3 [E4 E5]]]].
    cbn [id text metadata chunk_index title]. rewrite E1, E2, E3, E4, E5. repeat split.
Qed.

(** X9.  Loading the manual stores it under the key safety_manual with
    one chunk per supplied chunk, in order, keeping each identifier, text
    and title and numbering them from 0, and sets the statistics to one
    document with that many chunks; loading the same data again changes
    nothing. *)
Theorem load_safety_manual_stores (d : safety_data) (s : server_state) :
  let s' := load_safety_manual (Some d) s in
  (exists doc,
      dict_get (lit "safety_manual") (knowledge_base s') = Some doc /\
      map id (chunks doc) = map mc_id (sd_chunks d) /\
      map text (chunks doc) = map mc_content (sd_chunks d) /\
      map (fun c => chunk_index (metadata c)) (chunks doc) = seq 0 (length (sd_chunks d)) /\
      full_text doc = sd_full_text d) /\
  stats s' = {| total_documents := 1; total_chunks := length (sd_chunks d);
                categories := [lit "safety_manual"] |} /\
  load_safety_manual (Some d) s' = s'.
Proof.
  intros s'. subst s'. cbn [load_safety_manual knowledge_base stats].
  match goal with
  | |- context [manual_chunks ?m 0 (sd_chunks d)] =>
      destruct (manual_chunks_map m (sd_chunks d) 0) as [E1 [E2 [E3 [_ E5]]]]
  end.
  repeat split.
  - eexists. split; [apply dict_get_set_same|]. cbn [chunks full_text]. repeat split;
      assumption.
  - rewrite E5. reflexivity.
  - f_equal. apply dict_set_twice.
Qed.

(** ** More on the relevance scorer *)

Lemma lower_char_idem (c : ascii) : lower_char (lower_char c) = lower_char c.
Proof.
  destruct c as [[] [] [] [] [] [] [] []]; reflexivity.
Qed.

Lemma lower_idem (s : str) : lower (lower s) = lower s.
Proof.
  unfold lower. rewrite map_map. apply map_ext. exact lower_char_idem.
Qed.

Lemma score_chunk_lower (question : str) (c : chunk) :
  score_chunk (lower question) c = score_chunk question c.
Proof.
  unfold score_chunk, boosted_matches, phrase_hit, question_words.
  rewrite lower_idem. reflexivity.
Qed.

Lemma scan_docs_ext (q1 q2 : str) (kb : KnowledgeBase) :
  (forall c, score_chunk q1 c = score_chunk q2 c) ->
  scan_docs q1 kb = scan_docs q2 kb.
Proof.
  intros H.
  assert (Hc : forall cs, scan_chunks q1 cs = scan_chunks q2 cs).
  { induction cs as [|c cs IH]; cbn [scan_chunks]; [reflexivity|].
    rewrite H, IH. reflexivity. }
  induction kb as [|[k d] kb IH]; cbn [scan_docs]; [reflexivity|].
  rewrite Hc, IH. reflexivity.
Qed.

Lemma find_relevant_chunks_lower (question : str) (max_chunks : Z)
    (kb : KnowledgeBase) :
  find_relevant_chunks (lower question) max_chunks kb =
  find_relevant_chunks question max_chunks kb.
Proof.
  unfold find_relevant_chunks.
  rewrite (scan_docs_ext (lower question) question kb (score_chunk_lower question)).
  reflexivity.
Qed.

(** X10.  The scorer does not see the letter case of the query: the
    lowercased query gives the same knowledge base and the same ranked
    list as the query itself. *)
Theorem find_relevant_chunks_case_insensitive (question : str) (max_chunks : Z)
    (kb : KnowledgeBase) :
  find_relevant_chunks (lower question) max_chunks kb =
  find_relevant_chunks question max_chunks kb.
Proof. exact (find_relevant_chunks_lower question max_chunks kb). Qed.

Lemma selected_rescored (question : str) (c : chunk) :
  selected question (rescored question c) = selected question c.
Proof.
  rewrite !selected_matches.
  destruct (rescored_frame question c) as [_ [-> _]]. reflexivity.
Qed.

Lemma rescored_idem (question : str) (c : chunk) :
  rescored question (rescored question c) = rescored question c.
Proof.
  unfold rescored, score_chunk.
  destruct (0 <? count_matches (question_words question) (lower (text c))) eqn:E;
    cbn [fst].
  - cbn [set_score text]. rewrite E. reflexivity.
  - rewrite E. reflexivity.
Qed.

Lemma filter_map_commute {A} (f : A -> A) (p : A -> bool) (l : list A) :
  (forall x, p (f x) = p x) -> filter p (map f l) = map f (filter p l).
Proof.
  intros H. induction l as [|x l IH]; simpl; [reflexivity|].
  rewrite H. destruct (p x); simpl; rewrite IH; reflexivity.
Qed.

(** X11.  Asking the same question again changes nothing more: on the
    knowledge base left by a call, the same call returns the same ranked
    list and leaves the knowledge base as it finds it. *)
Theorem find_relevant_chunks_idempotent (question : str) (max_chunks : Z)
    (kb : KnowledgeBase) :
  find_relevant_chunks question max_chunks
    (fst (find_relevant_chunks question max_chunks kb)) =
  find_relevant_chunks question max_chunks kb.
Proof.
  rewrite find_relevant_chunks_fst. unfold find_relevant_chunks.
  rewrite !scan_docs_eq. f_equal.
  - rewrite map_map. apply map_ext. intros [k d]. cbn [fst snd]. f_equal.
    unfold rescored_doc. cbn [chunks doc_metadata_of full_text sections].
    f_equal. rewrite map_map. apply map_ext. apply rescored_idem.
  - f_equal. f_equal. rewrite flat_map_concat_map, map_map, <- flat_map_concat_map.
    apply flat_map_ext. intros [k d]. cbn [snd rescored_doc chunks].
    rewrite filter_map_commute by apply selected_rescored.
    rewrite map_map. apply map_ext. apply rescored_idem.
Qed.

Lemma relevant_all_chunks (question : str) (kb : KnowledgeBase) :
  snd (scan_docs question kb) =
    map (rescored question) (filter (selected question) (all_chunks kb)).
Proof.
  rewrite scan_docs_eq. cbn [snd]. unfold all_chunks.
  induction kb as [|[k d] kb IH]; cbn [flat_map]; [reflexivity|].
  rewrite filter_app, map_app, IH. reflexivity.
Qed.

Lemma find_relevant_chunks_snd (question : str) (max_chunks : Z) (kb : KnowledgeBase) :
  snd (find_relevant_chunks question max_chunks kb) =
    slice_to (sort_desc (map (rescored question)
                             (filter (selected question) (all_chunks kb)))) max_chunks.
Proof.
  unfold find_relevant_chunks. rewrite <- relevant_all_chunks.
  destruct (scan_docs question kb). reflexivity.
Qed.

(** X12.  The first returned chunk has the highest score of the query:
    no selected chunk of the knowledge base scores more. *)
Theorem top_chunk_is_best (question : str) (max_chunks : Z) (kb : KnowledgeBase)
    (top : chunk) (rest : list chunk) :
  snd (find_relevant_chunks question max_chunks kb) = top :: rest ->
  forall c, In c (all_chunks kb) -> selected question c = true ->
            (sort_key (rescored question c) <= sort_key top)%Q.
Proof.
  rewrite find_relevant_chunks_snd, slice_to_firstn. intros E c Hc Hs.
  set (rel := map (rescored question) (filter (selected question) (all_chunks kb))) in *.
  assert (Hin : In (rescored question c) (sort_desc rel)).
  { apply (Permutation_in _ (Permutation_sym (sort_desc_perm rel))).
    apply in_map. apply filter_In. split; assumption. }
  pose proof (sort_desc_sorted rel) as Hsorted.
  destruct (sort_desc rel) as [|x l]; [destruct Hin|].
  destruct (clamp_index (length (x :: l)) max_chunks) as [|n]; [discriminate|].
  cbn [firstn] in E. injection E as -> _.
  destruct Hin as [<- | Hin]; [apply Qle_refl|].
  inversion Hsorted as [|? ? _ Hall]; subst. rewrite Forall_forall in Hall.
  apply (Hall _ Hin).
Qed.

Lemma top_chunk_is_best_witness :
  (sort_key (rescored (lit "hard hats") sample_chunk)
   <= sort_key (hd sample_chunk sample_ranked))%Q.
Proof.
  apply (@top_chunk_is_best (lit "hard hats") default_max_chunks sample_kb
           (hd sample_chunk sample_ranked) (tl sample_ranked)).
  - vm_compute. reflexivity.
  - vm_compute. left. reflexivity.
  - vm_compute. reflexivity.
Defined.

(** X13.  For a non-negative limit the scorer returns
    min(limit, number of selected chunks) chunks, and when the limit does
    not cut, the returned list is a rearrangement of all selected chunks,
    each with its new score. *)
Theorem find_relevant_chunks_complete (question : str) (max_chunks : Z)
    (kb : KnowledgeBase) :
  (0 <= max_chunks)%Z ->
  let hits := filter (selected question) (all_chunks kb) in
  let ranked := snd (find_relevant_chunks question max_chunks kb) in
  length ranked = Nat.min (Z.to_nat max_chunks) (length hits) /\
  (length hits <= Z.to_nat max_chunks ->
   Permutation ranked (map (rescored question) hits)).
Proof.
  intros Hm hits ranked. subst ranked. rewrite find_relevant_chunks_snd.
  fold hits. rewrite slice_to_firstn.
  pose proof (sort_desc_perm (map (rescored question) hits)) as P.
  pose proof (Permutation_length P) as L. rewrite length_map in L.
  assert (Ec : clamp_index (length (sort_desc (map (rescored question) hits))) max_chunks
               = Nat.min (Z.to_nat max_chunks) (length hits)).
  { unfold clamp_index. rewrite L. destruct (Z.ltb_spec max_chunks 0); lia. }
  rewrite Ec. split.
  - rewrite length_firstn, L. lia.
  - intros Hle. rewrite firstn_all2 by (rewrite L; lia). exact P.
Qed.

Lemma find_relevant_chunks_complete_witness :
  let hits := filter (selected (lit "hard hats")) (all_chunks sample_kb) in
  let ranked := snd (find_relevant_chunks (lit "hard hats") default_max_chunks sample_kb) in
  length ranked = Nat.min (Z.to_nat default_max_chunks) (length hits) /\
  Permutation ranked (map (rescored (lit "hard hats")) hits).
Proof.
  destruct (@find_relevant_chunks_complete (lit "hard hats") default_max_chunks sample_kb
              ltac:(unfold default_max_chunks; lia)) as [H1 H2].
  split; [exact H1|]. apply H2. vm_compute. lia.
Defined.

Lemma insert_desc_filter (v : Q) (x : chunk) (l : list chunk) :
  filter (same_score v) (insert_desc x l) = filter (same_score v) (x :: l).
Proof.
  induction l as [|y l IH]; cbn [insert_desc]; [reflexivity|].
  destruct (Qle_bool (sort_key y) (sort_key x)) eqn:E; [reflexivity|].
  apply Qle_bool_false in E.
  cbn [filter] in *. rewrite IH.
  destruct (same_score v x) eqn:Px; [|reflexivity].
  assert (Py : same_score v y = false).
  { unfold same_score in *. apply Qeq_bool_iff in Px.
    destruct (Qeq_bool (sort_key y) v) eqn:Ey; [|reflexivity].
    apply Qeq_bool_iff in Ey. rewrite Px, Ey in E.
    exfalso. exact (Qlt_irrefl _ E). }
  rewrite Py. reflexivity.
Qed.

Lemma sort_desc_filter (v : Q) (l : list chunk) :
  filter (same_score v) (sort_desc l) = filter (same_score v) l.
Proof.
  induction l as [|x l IH]; cbn [sort_desc fold_right]; [reflexivity|].
  fold (sort_desc l). rewrite insert_desc_filter. cbn [filter]. rewrite IH. reflexivity.
Qed.

(** X14.  Ties keep the order of the knowledge base: when the limit does
    not cut the list, the returned chunks of any one score are in the order
    in which the knowledge base holds them. *)
Theorem ties_keep_order (question : str) (max_chunks : Z) (kb : KnowledgeBase) (v : Q) :
  (0 <= max_chunks)%Z ->
  length (filter (selected question) (all_chunks kb)) <= Z.to_nat max_chunks ->
  filter (same_score v) (snd (find_relevant_chunks question max_chunks kb)) =
  filter (same_score v)
         (map (rescored question) (filter (selected question) (all_chunks kb))).
Proof.
  intros Hm Hle. rewrite find_relevant_chunks_snd, slice_to_firstn.
  set (rel := map (rescored question) (filter (selected question) (all_chunks kb))).
  pose proof (Permutation_length (sort_desc_perm rel)) as L.
  assert (Hr : length rel = length (filter (selected question) (all_chunks kb)))
    by (unfold rel; apply length_map).
  rewrite firstn_all2.
  - apply sort_desc_filter.
  - unfold clamp_index. destruct (Z.ltb_spec max_chunks 0); lia.
Qed.

Lemma ties_keep_order_witness :
  filter (same_score (3 # 2)) (snd (find_relevant_chunks (lit "glasses and") default_max_chunks sample_kb)) =
  filter (same_score (3 # 2))
         (map (rescored (lit "glasses and"))
              (filter (selected (lit "glasses and")) (all_chunks sample_kb))).
Proof.
  apply (@ties_keep_order (lit "glasses and") default_max_chunks sample_kb (3 # 2)%Q).
  - unfold default_max_chunks; lia.
  - vm_compute. lia.
Defined.

(** X15.  A query with a word made only of the characters . , ! ? has the
    empty string among its tokens, and the empty string occurs in every
    text: every chunk of the knowledge base is selected, so the scorer
    returns min(limit, number of chunks) chunks whatever they contain. *)
Theorem punctuation_word_selects_all (question : str) (max_chunks : Z)
    (kb : KnowledgeBase) (segment : str) :
  In segment (split (lower question)) ->
  forallb (mem_char punctuation) segment = true ->
  (0 <= max_chunks)%Z ->
  (forall c, selected question c = true) /\
  length (snd (find_relevant_chunks question max_chunks kb)) =
    Nat.min (Z.to_nat max_chunks) (length (all_chunks kb)).
Proof.
  intros Hseg Hp Hm.
  assert (Hall : forall c, selected question c = true).
  { intros c. rewrite selected_matches. apply Nat.ltb_lt.
    unfold count_matches, question_words.
    assert (Hin : In [] (filter (fun word => contains word (lower (text c)))
                           (map (strip_chars punctuation) (split (lower question))))).
    { apply filter_In. split; [|apply contains_nil].
      unfold strip_chars. rewrite <- (strip_set_all (mem_char punctuation) segment Hp).
      apply in_map; exact Hseg. }
    destruct (filter _ _); [destruct Hin | simpl; lia]. }
  split; [exact Hall|].
  rewrite find_relevant_chunks_snd, slice_to_firstn, length_firstn.
  pose proof (Permutation_length
                (sort_desc_perm (map (rescored question)
                                     (filter (selected question) (all_chunks kb))))) as L.
  rewrite length_map in L.
  assert (Ef : filter (selected question) (all_chunks kb) = all_chunks kb).
  { apply forallb_filter_id. apply forallb_forall. intros c _. apply Hall. }
  rewrite Ef in L. rewrite Ef, L.
  unfold clamp_index. destruct (Z.ltb_spec max_chunks 0); lia.
Qed.

Lemma punctuation_word_selects_all_witness :
  (forall c, selected (lit "what ?") c = true) /\
  length (snd (find_relevant_chunks (lit "what ?") default_max_chunks sample_kb)) =
    Nat.min (Z.to_nat default_max_chunks) (length (all_chunks sample_kb)).
Proof.
  apply (@punctuation_word_selects_all (lit "what ?") default_max_chunks sample_kb (lit "?")).
  - vm_compute. auto.
  - reflexivity.
  - unfold default_max_chunks; lia.
Defined.



(** ** More on the answer synthesizer *)

Lemma preamble_length : length preamble = 29.
Proof. reflexivity. Qed.

Lemma numbered_cons (i : nat) (c : chunk) (cs : list chunk) (acc : str) :
  numbered i (c :: cs) acc =
    numbered (S i) cs
      (acc ++ str_of_nat i ++ lit ". " ++ firstn 300 (text c) ++ lit "..." ++ [nl; nl]).
Proof. reflexivity. Qed.

Lemma numbered_item_length (i : nat) (c : chunk) (acc : str) :
  1 <= i <= 3 ->
  length (acc ++ str_of_nat i ++ lit ". " ++ firstn 300 (text c) ++ lit "..." ++ [nl; nl])
    <= length acc + 308.
Proof.
  intros Hi. rewrite !length_app.
  pose proof (firstn_le_length 300 (text c)) as Hf.
  assert (Hn : length (str_of_nat i) = 1).
  { destruct i as [|[|[|[|i]]]]; try lia; reflexivity. }
  rewrite Hn. change (length (lit ". ")) with 2. change (length (lit "...")) with 3.
  change (length [nl; nl]) with 2. unfold str in *. lia.
Qed.

Lemma score_or_default_clamped (c : chunk) :
  (5 # 10 <= py_min (8 # 10) (py_max (5 # 10) (score_or_default c)) <= 8 # 10)%Q.
Proof.
  assert (H : (5 # 10 <= 8 # 10)%Q) by (unfold Qle; simpl; lia).
  pose proof (py_clamp (score_or_default c) H) as E.
  pose proof (clamp_bounds (score_or_default c) H) as [B1 B2].
  split; rewrite E; assumption.
Qed.

(** X17.  The extractive strategy fails only on the empty list, with
    IndexError.  On any other list, scored or not, it cites
    min(3, length) sources, its confidence lies in [0.5, 0.8], and its text
    starts with the fixed preamble and is at most 953 characters long,
    however long the chunks are. *)
Theorem simple_response_envelope (relevant_chunks : list chunk) :
  match generate_simple_response relevant_chunks with
  | Ok a =>
      relevant_chunks <> [] /\
      length (sources a) = Nat.min 3 (length relevant_chunks) /\
      (5 # 10 <= confidence a <= 8 # 10)%Q /\
      (exists t, response a = preamble ++ t) /\
      length (response a) <= 953
  | Raise e => relevant_chunks = [] /\ e = IndexError (lit "list index out of range")
  end.
Proof.
  unfold generate_simple_response.
  destruct relevant_chunks as [|c1 [|c2 [|c3 rest]]].
  - split; reflexivity.
  - change (firstn 3 [c1]) with [c1].
    cbn [confidence sources response map length].
    split; [discriminate|]. split; [reflexivity|].
    split; [apply score_or_default_clamped|]. split; [eexists; reflexivity|].
    rewrite !length_app, preamble_length.
    pose proof (firstn_le_length 500 (text c1)). change (length (lit "...")) with 3.
    unfold str in *. lia.
  - change (firstn 3 [c1; c2]) with [c1; c2].
    cbn [confidence sources response map length].
    split; [discriminate|]. split; [reflexivity|].
    split; [apply score_or_default_clamped|]. split.
    + rewrite !numbered_cons. cbn [numbered]. rewrite <- !app_assoc.
      eexists; reflexivity.
    + rewrite !numbered_cons. cbn [numbered].
      eapply Nat.le_trans; [apply numbered_item_length; lia|].
      pose proof (@numbered_item_length 1 c1 preamble ltac:(lia)).
      rewrite preamble_length in *. unfold str in *. lia.
  - change (firstn 3 (c1 :: c2 :: c3 :: rest)) with [c1; c2; c3].
    cbn [confidence sources response map length].
    split; [discriminate|]. split; [reflexivity|].
    split; [apply score_or_default_clamped|]. split.
    + rewrite !numbered_cons. cbn [numbered]. rewrite <- !app_assoc.
      eexists; reflexivity.
    + rewrite !numbered_cons. cbn [numbered].
      eapply Nat.le_trans; [apply numbered_item_length; lia|].
      pose proof (@numbered_item_length 1 c1 preamble ltac:(lia)) as H1.
      pose proof (@numbered_item_length 2 c2
                    (preamble ++ str_of_nat 1 ++ lit ". " ++ firstn 300 (text c1)
                       ++ lit "..." ++ [nl; nl]) ltac:(lia)) as H2.
      rewrite preamble_length in *. unfold str in *. lia.
Qed.

(** X18.  Only the three best ranked chunks reach an answer: both
    strategies give the same result on a ranked list and on its first
    three elements. *)
Theorem only_top_three (client : TextGenerator) (question : str)
    (relevant_chunks : list chunk) :
  generate_simple_response (firstn 3 relevant_chunks) =
    generate_simple_response relevant_chunks /\
  generate_ai_response client question (firstn 3 relevant_chunks) =
    generate_ai_response client question relevant_chunks.
Proof.
  assert (E : firstn 3 (firstn 3 relevant_chunks) = firstn 3 relevant_chunks)
    by (rewrite firstn_firstn; reflexivity).
  assert (Es : generate_simple_response (firstn 3 relevant_chunks) =
               generate_simple_response relevant_chunks)
    by (unfold generate_simple_response; rewrite E; reflexivity).
  split; [exact Es|].
  unfold generate_ai_response. rewrite E, Es. reflexivity.
Qed.



Lemma dropwhile_id (p : ascii -> bool) (s : str) :
  match s with [] => True | c :: _ => p c = false end -> dropwhile p s = s.
Proof. destruct s as [|c s]; simpl; [reflexivity|]. intros ->. reflexivity. Qed.

Lemma strip_set_idem (p : ascii -> bool) (s : str) :
  strip_set p (strip_set p s) = strip_set p s.
Proof.
  destruct (strip_set_spec p s) as [a [b [_ [_ [_ [H1 H2]]]]]].
  set (t := strip_set p s) in *. unfold strip_set at 1.
  rewrite (dropwhile_id p t H1), (dropwhile_id p (rev t) H2).
  apply rev_involutive.
Qed.

Lemma strip_idem (s : str) : strip (strip s) = strip s.
Proof. apply strip_set_idem. Qed.

Lemma dropwhile_lower (s : str) :
  dropwhile isspace (lower s) = lower (dropwhile isspace s).
Proof.
  induction s as [|c s IH]; simpl; [reflexivity|].
  rewrite isspace_lower_char. destruct (isspace c); [exact IH | reflexivity].
Qed.

Lemma strip_lower (s : str) : strip (lower s) = lower (strip s).
Proof.
  unfold strip, strip_set, lower.
  fold (lower s). rewrite dropwhile_lower. unfold lower at 1.
  rewrite <- map_rev. fold (lower (rev (dropwhile isspace s))).
  rewrite dropwhile_lower. unfold lower. rewrite map_rev. reflexivity.
Qed.

Lemma truthy_lower (s : str) : truthy (lower s) = truthy s.
Proof. destruct s; reflexivity. Qed.

(** X20.  The handler sees the query only after trimming, and without a
    generator it does not see its letter case either: a query and its
    trimmed form are answered alike with any generator, and a query and
    its lowercased form are answered alike when no generator is
    configured. *)
Theorem chat_query_normalized (query : str) (kb : KnowledgeBase) :
  (forall client,
      chat_with_agent client (Some (strip query)) kb =
      chat_with_agent client (Some query) kb) /\
  chat_with_agent None (Some (lower query)) kb = chat_with_agent None (Some query) kb.
Proof.
  split.
  - intros client. unfold chat_with_agent. cbn [query_get].
    rewrite !strip_idem. reflexivity.
  - unfold chat_with_agent. cbn [query_get].
    rewrite strip_lower, truthy_lower, find_relevant_chunks_lower. reflexivity.
Qed.

(** ** The document loader of the backend *)

Section DictFacts.

Variable V : Type.

Lemma aget_aset_same (k : str) (v : V) (d : adict V) : aget k (aset k v d) = Some v.
Proof.
  induction d as [|[k' v'] d IH]; cbn [aset aget].
  - rewrite str_eqb_refl. reflexivity.
  - destruct (str_eqb k k') eqn:E; cbn [aget]; rewrite E; [reflexivity | exact IH].
Qed.

Lemma aget_aset_other (k k' : str) (v : V) (d : adict V) :
  k' <> k -> aget k' (aset k v d) = aget k' d.
Proof.
  intros N. induction d as [|[k0 v0] d IH]; cbn [aset aget].
  - apply str_eqb_neq in N. rewrite N. reflexivity.
  - destruct (str_eqb k k0) eqn:E; cbn [aget].
    + apply str_eqb_eq in E. subst k0. apply str_eqb_neq in N. rewrite N. reflexivity.
    + rewrite IH. reflexivity.
Qed.

Lemma aget_adel_other (k k' : str) (d : adict V) :
  k' <> k -> aget k' (adel k d) = aget k' d.
Proof.
  intros N. induction d as [|[k0 v0] d IH]; cbn [adel aget]; [reflexivity|].
  destruct (str_eqb k k0) eqn:E; cbn [aget].
  - apply str_eqb_eq in E. subst k0. apply str_eqb_neq in N. rewrite N. reflexivity.
  - rewrite IH. reflexivity.
Qed.

Lemma aget_In (k : str) (v : V) (d : adict V) : aget k d = Some v -> In k (map fst d).
Proof.
  induction d as [|[k0 v0] d IH]; cbn [aget]; [discriminate|].
  destruct (str_eqb k k0) eqn:E.
  - apply str_eqb_eq in E. intros _. left. symmetry. exact E.
  - intros H. right. apply IH; exact H.
Qed.

Lemma aget_not_In (k : str) (d : adict V) : ~ In k (map fst d) -> aget k d = None.
Proof.
  induction d as [|[k0 v0] d IH]; intros H; cbn [aget]; [reflexivity|].
  destruct (str_eqb k k0) eqn:E.
  - apply str_eqb_eq in E. exfalso. apply H. left. symmetry. exact E.
  - apply IH. intros Hin. apply H. right. exact Hin.
Qed.

Lemma adel_keys (k : str) (d : adict V) :
  forall x, In x (map fst (adel k d)) -> In x (map fst d).
Proof.
  induction d as [|[k0 v0] d IH]; cbn [adel]; [auto|].
  destruct (str_eqb k k0); intros x Hx.
  - right. exact Hx.
  - destruct Hx as [<- | Hx]; [left; reflexivity | right; apply IH; exact Hx].
Qed.

Lemma aget_adel_same (k : str) (d : adict V) :
  NoDup (map fst d) -> aget k (adel k d) = None.
Proof.
  induction d as [|[k0 v0] d IH]; intros H; cbn [adel]; [reflexivity|].
  inversion H as [|? ? Hn Hd]; subst.
  destruct (str_eqb k k0) eqn:E.
  - apply str_eqb_eq in E. subst k0. apply aget_not_In. exact Hn.
  - cbn [aget]. rewrite E. apply IH; exact Hd.
Qed.

Lemma adel_length (k : str) (v : V) (d : adict V) :
  aget k d = Some v -> S (length (adel k d)) = length d.
Proof.
  induction d as [|[k0 v0] d IH]; cbn [aget adel]; [discriminate|].
  destruct (str_eqb k k0); [reflexivity|].
  intros H. cbn [length]. rewrite (IH H). reflexivity.
Qed.

Lemma aset_length (k : str) (v : V) (d : adict V) :
  length (aset k v d) = length d + (if amem k d then 0 else 1).
Proof.
  unfold amem. induction d as [|[k0 v0] d IH]; cbn [aset aget length]; [reflexivity|].
  destruct (str_eqb k k0); cbn [length]; [lia|]. rewrite IH. lia.
Qed.

Lemma adel_sum (f : V -> nat) (k : str) (v : V) (d : adict V) :
  aget k d = Some v ->
  list_sum (map f (map snd (adel k d))) + f v = list_sum (map f (map snd d)).
Proof.
  induction d as [|[k0 v0] d IH]; cbn [aget adel]; [discriminate|].
  destruct (str_eqb k k0).
  - intros H. injection H as ->. simpl. lia.
  - intros H. simpl. rewrite <- (IH H). lia.
Qed.

End DictFacts.

Lemma fold_left_add {A} (f : A -> nat) (l : list A) (a : nat) :
  fold_left (fun n x => n + f x) l a = a + list_sum (map f l).
Proof.
  revert a; induction l as [|x l IH]; intros a; simpl; [lia|]. rewrite IH. lia.
Qed.

Lemma aset_count_sum (t : str) (ft : adict nat) :
  list_sum (map snd (aset t (match aget t ft with Some n => n | None => 0 end + 1) ft))
  = list_sum (map snd ft) + 1.
Proof.
  induction ft as [|[k n] ft IH]; cbn [aget aset]; [simpl; lia|].
  destruct (str_eqb t k); simpl; [lia|]. simpl in IH. rewrite IH. lia.
Qed.

Lemma count_file_types_sum (values : list Loader.entry) (acc : adict nat) :
  list_sum (map snd (fold_left Loader.count_file_type values acc)) =
  list_sum (map snd acc) + length values.
Proof.
  revert acc; induction values as [|e values IH]; intros acc; cbn [fold_left length];
    [lia|].
  rewrite IH. unfold Loader.count_file_type. rewrite aset_count_sum. lia.
Qed.

(** X21.  The file-type histogram of the loader's statistics accounts for
    every document once: its counts add up to the number of documents
    (a document without a file type is counted under "unknown"). *)
Theorem loader_stats_histogram (l : Loader.loader) :
  list_sum (map snd (Loader.file_types (Loader.get_stats l))) =
  Loader.total_documents (Loader.get_stats l).
Proof.
  unfold Loader.get_stats. cbn [Loader.file_types Loader.total_documents].
  rewrite count_file_types_sum. simpl. rewrite length_map. reflexivity.
Qed.

(** X22.  Deleting from the loader: an unknown identifier gives False and
    changes nothing; a known one gives True, removes the entry, lowers the
    document total by one and the chunk total by the entry's chunk count,
    leaves every other entry alone, and a second deletion gives False. *)
Theorem loader_delete_document (doc_id : str) (l : Loader.loader) :
  NoDup (map fst (Loader.documents_metadata l)) ->
  match aget doc_id (Loader.documents_metadata l) with
  | None => Loader.delete_document doc_id l = (l, false)
  | Some e =>
      exists l',
        Loader.delete_document doc_id l = (l', true) /\
        aget doc_id (Loader.documents_metadata l') = None /\
        Loader.delete_document doc_id l' = (l', false) /\
        (forall k, k <> doc_id ->
                   aget k (Loader.documents_metadata l') =
                   aget k (Loader.documents_metadata l)) /\
        Loader.total_documents (Loader.get_stats l') + 1 =
          Loader.total_documents (Loader.get_stats l) /\
        Loader.total_chunks (Loader.get_stats l') + Loader.e_chunks_count e =
          Loader.total_chunks (Loader.get_stats l)
  end.
Proof.
  intros Hnd. unfold Loader.delete_document, amem.
  destruct (aget doc_id (Loader.documents_metadata l)) as [e|] eqn:E; cbn [negb];
    [|reflexivity].
  eexists. split; [reflexivity|].
  cbn [Loader.with_documents Loader.documents_metadata].
  pose proof (@aget_adel_same _ doc_id _ Hnd) as Hgone.
  split; [exact Hgone|]. split; [rewrite Hgone; reflexivity|].
  split; [intros k N; apply aget_adel_other; exact N|].
  unfold Loader.get_stats.
  cbn [Loader.total_documents Loader.total_chunks Loader.documents_metadata
       Loader.with_documents].
  split.
  - pose proof (@adel_length _ _ _ _ E) as HL. unfold adict in *. lia.
  - rewrite !fold_left_add. cbn [Nat.add].
    apply (@adel_sum _ Loader.e_chunks_count _ _ _ E).
Qed.

Lemma loader_delete_document_witness :
  let l := Loader.mk_loader (lit "./data/chroma_db") 1000 200
             [(lit "doc_a", Loader.mk_entry (lit "a.pdf") 3 [] (lit "t0"))] in
  exists l',
    Loader.delete_document (lit "doc_a") l = (l', true) /\
    aget (lit "doc_a") (Loader.documents_metadata l') = None /\
    Loader.delete_document (lit "doc_a") l' = (l', false) /\
    (forall k, k <> lit "doc_a" ->
               aget k (Loader.documents_metadata l') =
               aget k (Loader.documents_metadata l)) /\
    Loader.total_documents (Loader.get_stats l') + 1 =
      Loader.total_documents (Loader.get_stats l) /\
    Loader.total_chunks (Loader.get_stats l') + 3 =
      Loader.total_chunks (Loader.get_stats l).
Proof.
  intros l.
  apply (@loader_delete_document (lit "doc_a") l).
  simpl. constructor; [intros [] | constructor].
Defined.

(** X23.  Loading into the loader: a failed load (missing file,
    unsupported suffix, a collaborator that raises, no content) leaves
    [documents_metadata] as it was.  A successful load returns the generated
    identifier, under which the entry with the reported chunk count is then
    found; a new identifier adds one document, and loading under a known
    identifier replaces its entry without adding one. *)
Theorem loader_load_document (r : Loader.load_request) (l : Loader.loader) :
  match snd (Loader.load_document r l) with
  | inl doc_id =>
      doc_id = Loader.lr_doc_id r /\
      Loader.lr_exists r = true /\
      existsb (str_eqb (lower (Loader.lr_suffix r))) Loader.supported_suffixes = true /\
      (exists e,
          aget doc_id (Loader.documents_metadata (fst (Loader.load_document r l))) = Some e /\
          Loader.lr_chunks r = Some (Loader.e_chunks_count e) /\
          Loader.e_file_path e = Loader.lr_path r) /\
      (forall k, k <> doc_id ->
                 aget k (Loader.documents_metadata (fst (Loader.load_document r l))) =
                 aget k (Loader.documents_metadata l)) /\
      Loader.total_documents (Loader.get_stats (fst (Loader.load_document r l))) =
        Loader.total_documents (Loader.get_stats l)
        + (if amem doc_id (Loader.documents_metadata l) then 0 else 1)
  | inr _ => fst (Loader.load_document r l) = l
  end.
Proof.
  unfold Loader.load_document.
  destruct (Loader.lr_exists r); cbn [negb]; [|reflexivity].
  destruct (existsb (str_eqb (lower (Loader.lr_suffix r))) Loader.supported_suffixes);
    cbn [negb]; [|reflexivity].
  destruct (Loader.lr_documents r) as [[|n]|]; try reflexivity.
  destruct (Loader.lr_chunks r) as [m|]; [|reflexivity].
  cbn [snd fst Loader.with_documents Loader.documents_metadata].
  repeat split.
  - eexists. split; [apply aget_aset_same|]. split; reflexivity.
  - intros k N. apply aget_aset_other; exact N.
  - unfold Loader.get_stats.
    cbn [Loader.total_documents Loader.documents_metadata]. apply aset_length.
Qed.


(** X25.  The chat endpoint of the backend cites every retrieved
    document, with a preview of at most 203 characters that is the content
    itself when it has at most 200 characters; its confidence is a fifth
    of the number of sources, capped at 1, and 0 without sources. *)
Theorem chat_endpoint_sources (docs : list Main.source_document) :
  let sources := map Main.chat_source_of docs in
  length sources = length docs /\
  Forall2 (fun doc src =>
             length (Main.cs_content src) <= 203 /\
             firstn 200 (Main.cs_content src) = firstn 200 (Main.page_content doc) /\
             (length (Main.page_content doc) <= 200 ->
              Main.cs_content src = Main.page_content doc))
          docs sources /\
  (0 <= Main.chat_confidence sources <= 1)%Q /\
  (Main.chat_confidence sources ==
     if 5 <=? length docs then 1 else inject_Z (Z.of_nat (length docs)) / 5)%Q.
Proof.
  intros sources. subst sources. split; [apply length_map|]. split.
  - apply Forall2_map_self. intros doc _. unfold Main.chat_source_of.
    cbn [Main.cs_content].
    destruct (Nat.ltb_spec 200 (length (Main.page_content doc))) as [L|L].
    + repeat split.
      * rewrite length_app, length_firstn. change (length (lit "...")) with 3.
        unfold str in *. lia.
      * rewrite firstn_app, firstn_firstn, length_firstn.
        replace (200 - Nat.min 200 (length (Main.page_content doc))) with 0
          by (unfold str in *; lia).
        rewrite firstn_0, app_nil_r. reflexivity.
      * intros H. unfold str in *. lia.
    + repeat split. unfold str in *. lia.
  - unfold Main.chat_confidence. rewrite length_map.
    destruct docs as [|d docs]; cbn [map truthy].
    + split; [split; unfold Qle; simpl; lia | reflexivity].
    + set (n := length (d :: docs)).
      assert (Hn : 0 < n) by (unfold n; simpl; lia). clearbody n.
      assert (Hq : (0 <= inject_Z (Z.of_nat n) / 5)%Q).
      { apply Qle_shift_div_l; [reflexivity|]. rewrite Qmult_0_l.
        change 0%Q with (inject_Z 0). rewrite <- Zle_Qle. lia. }
      unfold py_min. destruct (Nat.leb_spec 5 n) as [L|L].
      * assert (H1 : (1 <= inject_Z (Z.of_nat n) / 5)%Q).
        { apply Qle_shift_div_l; [reflexivity|].
          change (1 * 5)%Q with (inject_Z 5). rewrite <- Zle_Qle. lia. }
        destruct (Qle_bool (inject_Z (Z.of_nat n) / 5) 1) eqn:E.
        -- apply Qle_bool_iff in E. split; [split; assumption|].
           apply Qle_antisym; assumption.
        -- split; [split; [unfold Qle; simpl; lia | apply Qle_refl] | reflexivity].
      * assert (H1 : (inject_Z (Z.of_nat n) / 5 <= 1)%Q).
        { apply Qle_shift_div_r; [reflexivity|].
          change (1 * 5)%Q with (inject_Z 5). rewrite <- Zle_Qle. lia. }
        apply Qle_bool_iff in H1 as E. rewrite E.
        split; [split; assumption | reflexivity].
Qed.

(** ** The connection manager of the backend *)

Lemma nth_error_skipn {A} (l : list A) (i : nat) (x : A) :
  nth_error l i = Some x -> skipn i l = x :: skipn (S i) l.
Proof.
  revert i; induction l as [|y l IH]; intros [|i]; simpl; try discriminate.
  - intros H. injection H as ->. reflexivity.
  - intros H. apply IH; exact H.
Qed.

Lemma broadcast_loop_healthy (healthy : nat -> bool) (fuel i : nat)
    (conns delivered : list nat) :
  (forall c, In c conns -> healthy c = true) ->
  length conns - i <= fuel ->
  Main.broadcast_loop healthy fuel i conns delivered = (conns, delivered ++ skipn i conns).
Proof.
  intros Hh. revert i delivered.
  induction fuel as [|fuel IH]; intros i delivered Hf; cbn [Main.broadcast_loop].
  - rewrite skipn_all2 by lia. rewrite app_nil_r. reflexivity.
  - destruct (nth_error conns i) as [c|] eqn:E.
    + rewrite (Hh c (nth_error_In _ _ E)).
      rewrite IH by lia.
      rewrite (nth_error_skipn _ _ E), <- app_assoc. reflexivity.
    + apply nth_error_None in E. rewrite skipn_all2 by lia. rewrite app_nil_r.
      reflexivity.
Qed.

(** X26.  When every connection accepts the message, a broadcast sends it
    to each connection once, in order, and keeps the list as it is. *)
Theorem broadcast_all_healthy (healthy : nat -> bool) (active_connections : list nat) :
  (forall c, In c active_connections -> healthy c = true) ->
  Main.broadcast healthy active_connections = (active_connections, active_connections).
Proof.
  intros H. unfold Main.broadcast.
  rewrite broadcast_loop_healthy by (auto; lia). reflexivity.
Qed.

Lemma broadcast_all_healthy_witness :
  Main.broadcast (fun _ => true) [1; 2; 3] = ([1; 2; 3], [1; 2; 3]).
Proof.
  apply (@broadcast_all_healthy (fun _ => true) [1; 2; 3]). reflexivity.
Defined.

Lemma list_remove_middle (x : nat) (pre l : list nat) :
  ~ In x pre -> Main.list_remove x (pre ++ x :: l) = Some (pre ++ l).
Proof.
  induction pre as [|y pre IH]; intros H; cbn [app Main.list_remove].
  - rewrite Nat.eqb_refl. reflexivity.
  - destruct (Nat.eqb_spec x y) as [->|N]; [exfalso; apply H; left; reflexivity|].
    rewrite IH by (intros Hin; apply H; right; exact Hin). reflexivity.
Qed.

Lemma broadcast_loop_broken (healthy : nat -> bool) (fuel : nat)
    (pre l delivered : list nat) :
  (forall c, In c l -> healthy c = false) ->
  NoDup (pre ++ l) ->
  length l <= fuel ->
  Main.broadcast_loop healthy fuel (length pre) (pre ++ l) delivered =
    (pre ++ Main.odd_positions l, delivered).
Proof.
  revert pre l. induction fuel as [|fuel IH]; intros pre l Hb Hnd Hf.
  - destruct l; [reflexivity | simpl in Hf; lia].
  - cbn [Main.broadcast_loop]. destruct l as [|x l].
    + rewrite (proj2 (nth_error_None _ _)) by (rewrite length_app; simpl; lia).
      reflexivity.
    + rewrite nth_error_app2 by lia. rewrite Nat.sub_diag. cbn [nth_error].
      rewrite (Hb x (or_introl eq_refl)).
      assert (Hx : ~ In x pre).
      { intros Hin. apply NoDup_remove_2 in Hnd. apply Hnd.
        apply in_or_app. left; exact Hin. }
      rewrite (@list_remove_middle x pre l Hx).
      apply NoDup_remove_1 in Hnd.
      destruct l as [|y l].
      * cbn [Main.odd_positions]. destruct fuel; cbn [Main.broadcast_loop]; [reflexivity|].
        rewrite (proj2 (nth_error_None _ _)) by (rewrite length_app; simpl; lia).
        reflexivity.
      * cbn [Main.odd_positions].
        replace (pre ++ y :: l) with ((pre ++ [y]) ++ l) in *
          by (rewrite <- app_assoc; reflexivity).
        replace (S (length pre)) with (length (pre ++ [y]))
          by (rewrite length_app; simpl; lia).
        rewrite IH.
        -- rewrite <- app_assoc. reflexivity.
        -- intros c Hc. apply Hb. right; right; exact Hc.
        -- exact Hnd.
        -- simpl in Hf. lia.
Qed.

(** X27.  When every connection fails, a broadcast does not clear the
    list: removing the failed connection from the list being walked makes
    the walk skip its successor, so of distinct connections exactly those
    at the positions 1, 3, 5, ... stay registered (and are not even tried). *)
Theorem broadcast_all_broken (healthy : nat -> bool) (active_connections : list nat) :
  NoDup active_connections ->
  (forall c, In c active_connections -> healthy c = false) ->
  Main.broadcast healthy active_connections =
    (Main.odd_positions active_connections, []).
Proof.
  intros Hnd Hb. unfold Main.broadcast.
  apply (@broadcast_loop_broken healthy (length active_connections) []
           active_connections [] Hb Hnd (Nat.le_refl _)).
Qed.

Lemma broadcast_all_broken_witness :
  Main.broadcast (fun _ => false) [1; 2; 3; 4; 5] = ([2; 4], []).
Proof.
  apply (@broadcast_all_broken (fun _ => false) [1; 2; 3; 4; 5]).
  - repeat constructor; simpl; intuition discriminate.
  - reflexivity.
Defined.

(** ** File extensions *)

Lemma rfind_app (c : ascii) (pre p : str) :
  forallb (fun x => negb (Ascii.eqb x c)) pre = true ->
  rfind c (pre ++ p) = option_map (fun i => length pre + i) (rfind c p).
Proof.
  induction pre as [|x pre IH]; intros H; cbn [app rfind].
  - destruct (rfind c p); reflexivity.
  - cbn [forallb] in H. apply andb_true_iff in H as [Hx H].
    rewrite (IH H). destruct (rfind c p); cbn [option_map length]; [reflexivity|].
    apply negb_true_iff in Hx. rewrite Hx. reflexivity.
Qed.

Lemma rfind_lt (c : ascii) (p : str) (i : nat) : rfind c p = Some i -> i < length p.
Proof.
  revert i; induction p as [|x p IH]; intros i; cbn [rfind]; [discriminate|].
  destruct (rfind c p) as [j|].
  - intros H. injection H as <-. specialize (IH j eq_refl). simpl. lia.
  - destruct (Ascii.eqb x c); [|discriminate]. intros H. injection H as <-. simpl. lia.
Qed.

(** The loop finds a character exactly when one other than the dot lies
    in the scanned range. *)
Lemma skip_dots_spec (fuel : nat) (p : str) (i d : nat) :
  d - i <= fuel -> d <= length p ->
  (skip_dots fuel p i d = true <->
   exists j c, i <= j < d /\ nth_error p j = Some c /\ c <> "."%char).
Proof.
  revert i. induction fuel as [|fuel IH]; intros i Hf Hd; cbn [skip_dots].
  - split; [discriminate|]. intros [j [c [Hj _]]]. lia.
  - destruct (Nat.ltb_spec i d) as [L|L].
    + destruct (nth_error p i) as [c|] eqn:E.
      * destruct (Ascii.eqb c "."%char) eqn:Ec.
        -- apply Ascii.eqb_eq in Ec. subst c. rewrite IH by lia. split.
           ++ intros [j [c [Hj H]]]. exists j, c. split; [lia | exact H].
           ++ intros [j [c [Hj [Hn Hc]]]]. exists j, c.
              assert (j <> i) by (intros ->; rewrite E in Hn; congruence).
              split; [lia | auto].
        -- apply Ascii.eqb_neq in Ec. split; [|reflexivity].
           intros _. exists i, c. split; [lia | auto].
      * apply nth_error_None in E. lia.
    + split; [discriminate|]. intros [j [c [Hj _]]]. lia.
Qed.

(** What a non-empty extension tells about the path. *)
Lemma splitext_nonempty (p : str) :
  snd (splitext p) <> [] ->
  exists d,
    rfind "."%char p = Some d /\
    snd (splitext p) = skipn d p /\
    (match rfind "/"%char p with Some s => S s | None => 0 end) <= d /\
    skip_dots (length p) p
      (match rfind "/"%char p with Some s => S s | None => 0 end) d = true.
Proof.
  unfold splitext. destruct (rfind "."%char p) as [d|]; [|intros H; exfalso; apply H; reflexivity].
  destruct (Nat.leb_spec (match rfind "/"%char p with Some s => S s | None => 0 end) d)
    as [L|L]; [|intros H; exfalso; apply H; reflexivity].
  destruct (skip_dots _ _ _ _) eqn:E; [|intros H; exfalso; apply H; reflexivity].
  intros _. exists d. auto.
Qed.

Lemma splitext_temp (filename : str) :
  snd (splitext filename) <> [] ->
  snd (splitext (temp_path filename)) = snd (splitext filename).
Proof.
  intros H. destruct (@splitext_nonempty filename H) as [d [Hd [Hext [Hle Hskip]]]].
  rewrite Hext. unfold splitext, temp_path.
  rewrite !rfind_app by reflexivity. rewrite Hd. cbn [option_map].
  pose proof (@rfind_lt _ _ _ Hd) as Hlt.
  change (length (lit "temp_")) with 5.
  assert (Hlen : length (lit "temp_" ++ filename) = 5 + length filename)
    by (rewrite length_app; reflexivity).
  apply skip_dots_spec in Hskip as [j [c [Hj [Hn Hc]]]];
    [|unfold str in *; lia|unfold str in *; lia].
  destruct (rfind "/"%char filename) as [s|]; cbn [option_map].
  - assert (Hskip' :
      skip_dots (length (lit "temp_" ++ filename)) (lit "temp_" ++ filename)
                (S (5 + s)) (5 + d) = true).
    { apply skip_dots_spec; [unfold str in *; lia | unfold str in *; lia|].
      exists (5 + j), c. split; [lia|]. split; [|exact Hc].
      rewrite nth_error_app2 by (simpl; lia).
      replace (5 + j - length (lit "temp_")) with j by (simpl; lia). exact Hn. }
    rewrite Hskip'.
    replace (S (5 + s) <=? 5 + d) with true by (symmetry; apply Nat.leb_le; lia).
    cbn [snd]. rewrite skipn_app.
    replace (5 + d - length (lit "temp_")) with d by (simpl; lia).
    rewrite skipn_all2 by (simpl; lia). reflexivity.
  - assert (Hskip' :
      skip_dots (length (lit "temp_" ++ filename)) (lit "temp_" ++ filename)
                0 (5 + d) = true).
    { apply skip_dots_spec; [unfold str in *; lia | unfold str in *; lia|].
      exists 0, "t"%char. split; [lia|]. split; [reflexivity | discriminate]. }
    rewrite Hskip'.
    replace (0 <=? 5 + d) with true by (symmetry; apply Nat.leb_le; lia).
    cbn [snd]. rewrite skipn_app.
    replace (5 + d - length (lit "temp_")) with d by (simpl; lia).
    rewrite skipn_all2 by (simpl; lia). reflexivity.
Qed.

(** X28.  The upload handler and the text extractor agree on file types:
    when the extension of the uploaded file name passes the handler's
    check, the temporary path temp_<filename> has the same extension, and
    [extract_text] finds an extraction method for it rather than raising
    ValueError. *)
Theorem accepted_upload_is_extractable (filename : str) :
  existsb (str_eqb (lower (snd (splitext filename)))) allowed_extensions = true ->
  snd (splitext (temp_path filename)) = snd (splitext filename) /\
  exists e, extract_text (temp_path filename) = Ok e.
Proof.
  intros H.
  assert (Hne : snd (splitext filename) <> []).
  { intros E. rewrite E in H. discriminate H. }
  pose proof (@splitext_temp filename Hne) as Et. split; [exact Et|].
  unfold extract_text. rewrite Et.
  set (ext := lower (snd (splitext filename))) in *.
  unfold allowed_extensions in H. cbn [existsb] in *.
  destruct (str_eqb ext (lit ".pdf")); [eexists; reflexivity|].
  destruct (str_eqb ext (lit ".txt")); [eexists; reflexivity|].
  destruct (str_eqb ext (lit ".md")); [eexists; reflexivity|].
  destruct (str_eqb ext (lit ".docx")); [eexists; reflexivity|].
  destruct (str_eqb ext (lit ".doc")); [eexists; reflexivity|].
  discriminate H.
Qed.

Lemma accepted_upload_is_extractable_witness :
  snd (splitext (temp_path (lit "Site.Manual.PDF"))) = snd (splitext (lit "Site.Manual.PDF")) /\
  exists e, extract_text (temp_path (lit "Site.Manual.PDF")) = Ok e.
Proof.
  apply (@accepted_upload_is_extractable (lit "Site.Manual.PDF")). reflexivity.
Defined.
